(** * Simple Investor Portfolio: valuation and time-series engine

    A shallow embedding of the price lookup, totals, goal projection,
    timeline and import code of [src/index.js], together with the
    properties its specification states about them.

    Conventions of the embedding:
    - timestamps are epoch milliseconds, modelled as [Z];
    - prices, quantities and money amounts are JavaScript numbers, that
      is, IEEE 754 binary64 values with their rounding, infinities, signed
      zeros and [NaN]: [spec_float] at precision 53;
    - [null] is [None];
    - arrays are lists, [Array.prototype.sort] is the stable sort the
      language standard requires. *)

From Stdlib Require Import ZArith List String Bool Lia.
From Stdlib Require Import Permutation Sorted SpecFloat.
Import ListNotations.

Local Open Scope Z_scope.

(** ** JavaScript numbers *)

(** A number is a binary64 floating-point value. *)
Definition number : Type := spec_float.

Definition prec : Z := 53.
Definition emax : Z := 1024.

(** [a + b], [a - b], [a * b], [a / b], rounded to nearest, ties to even. *)
Definition fadd : number -> number -> number := SFadd prec emax.
Definition fsub : number -> number -> number := SFsub prec emax.
Definition fmul : number -> number -> number := SFmul prec emax.
Definition fdiv : number -> number -> number := SFdiv prec emax.

(** [a < b], [a <= b], [a > b]; each is [false] when an operand is [NaN]. *)
Definition flt (a b : number) : bool := SFltb a b.
Definition fle (a b : number) : bool := SFleb a b.
Definition fgt (a b : number) : bool := SFltb b a.

(** The literals [0] and [Infinity], and [NaN]. *)
Definition zero : number := S754_zero false.
Definition infinity : number := S754_infinity false.
Definition NaN : number := S754_nan.

(** The number an integer literal denotes. *)
Definition num (z : Z) : number := binary_normalize prec emax z 0 false.

(** The number a decimal literal denotes: the digits [m] with the last
    [d] of them after the point stand for [m / 10^d] rounded once, and the
    division gives just that when [m] and [10^d] are whole numbers a
    number holds without rounding ([m] below [2^53], [d] at most 22). *)
Definition decimal (m : Z) (d : positive) : number :=
  fdiv (num m) (num (Z.pow_pos 10 d)).

(** [isFinite(x)]. *)
Definition isFinite (x : number) : bool :=
  match x with
  | S754_zero _ | S754_finite _ _ _ => true
  | S754_infinity _ | S754_nan => false
  end.

(** [!x]: a number is falsy when it is [0], [-0] or [NaN]. *)
Definition falsy (x : number) : bool :=
  match x with
  | S754_zero _ | S754_nan => true
  | S754_infinity _ | S754_finite _ _ _ => false
  end.

(** [Math.ceil(x)].  A finite number with a non-negative exponent is an
    integer; otherwise the mantissa is divided by the power of two, upwards.
    A negative number above [-1] gives [-0]. *)
Definition Math_ceil (x : number) : number :=
  match x with
  | S754_finite s m (Zneg k) =>
      let d := Z.pow_pos 2 k in
      let q := Zpos m / d in
      if s then
        if q =? 0 then S754_zero true
        else binary_normalize prec emax (- q) 0 true
      else
        binary_normalize prec emax (if Zpos m mod d =? 0 then q else q + 1) 0 false
  | _ => x
  end.

(** ** Data model *)

(** A price observation [{ts, price}]. *)
Module Obs.
Record t : Type := mk { ts : Z; price : number }.
End Obs.

(** An instrument [{symbol, name, prices:[{ts, price}]}].  A missing
    [prices] field behaves as the empty array everywhere it is read
    ([e.prices?.length], [e.prices||[]]). *)
Module Etf.
Record t : Type := mk { symbol : string; name : string; prices : list Obs.t }.
End Etf.

(** A purchase [{ts, symbol, qty}]. *)
Module Purchase.
Record t : Type := mk { ts : Z; symbol : string; qty : number }.
End Purchase.

(** ** Price lookup *)

(** [etfs.find((x) => x.symbol === symbol)]: the first instrument with
    that symbol. *)
Definition find_etf (etfs : list Etf.t) (symbol : string) : option Etf.t :=
  find (fun x => String.eqb (Etf.symbol x) symbol) etfs.

(** The callback of [reduce] in [latestPrice]: [(a, b) => (a.ts > b.ts ? a : b)]. *)
Definition later_of (a b : Obs.t) : Obs.t :=
  if Obs.ts a >? Obs.ts b then a else b.

(** [prices.reduce(later_of)] on a non-empty array [a :: rest]. *)
Definition reduce_latest (a : Obs.t) (rest : list Obs.t) : Obs.t :=
  fold_left later_of rest a.

Definition latestPrice (etfs : list Etf.t) (symbol : string) : option number :=
  match find_etf etfs symbol with
  | None => None
  | Some e =>
      match Etf.prices e with
      | [] => None
      | a :: rest => Some (Obs.price (reduce_latest a rest))
      end
  end.

(** [Array.prototype.sort] with a comparator [(a, b) => key(a) - key(b)]:
    a stable sort by [key].  Insertion from the right puts an element
    before every later-stored element of the same key, so elements of
    equal key keep their stored order. *)
Section StableSort.
Context {A : Type} (key : A -> Z).

Fixpoint insert_by (x : A) (l : list A) : list A :=
  match l with
  | [] => [x]
  | y :: l' => if key x <=? key y then x :: l else y :: insert_by x l'
  end.

Definition sort_by (l : list A) : list A := fold_right insert_by [] l.
End StableSort.

(** [[...prices].sort((a, b) => a.ts - b.ts)], as a value. *)
Definition sort_by_ts (l : list Obs.t) : list Obs.t := sort_by Obs.ts l.

(** First loop of [priceAt]:
    [for (const p of sorted) { if (p.ts <= ts) candidate = p; else break; }] *)
Fixpoint scan_candidate (ts : Z) (sorted : list Obs.t) (candidate : option Obs.t)
  : option Obs.t :=
  match sorted with
  | [] => candidate
  | p :: rest =>
      if Obs.ts p <=? ts then scan_candidate ts rest (Some p) else candidate
  end.

(** Second loop of [priceAt]:
    [for (const p of sorted) { const diff = Math.abs(p.ts - ts);
       if (diff < minDiff) { minDiff = diff; closest = p; } }] *)
Fixpoint scan_closest (ts : Z) (sorted : list Obs.t) (closest : Obs.t) (minDiff : Z)
  : Obs.t :=
  match sorted with
  | [] => closest
  | p :: rest =>
      let diff := Z.abs (Obs.ts p - ts) in
      if diff <? minDiff then scan_closest ts rest p diff
      else scan_closest ts rest closest minDiff
  end.

(** [priceAt] from the sorted copy on: the two loops and the result.  The
    copy is never empty there (the function has returned [null] on an
    empty array), so the [[]] case of the fallback is not reached. *)
Definition price_scan (sorted : list Obs.t) (ts : Z) : option number :=
  match scan_candidate ts sorted None with
  | Some candidate => Some (Obs.price candidate)
  | None =>
      match sorted with
      | [] => None
      | s0 :: _ =>
          Some (Obs.price (scan_closest ts sorted s0 (Z.abs (Obs.ts s0 - ts))))
      end
  end.

Definition priceAt (etfs : list Etf.t) (symbol : string) (ts : Z) : option number :=
  match find_etf etfs symbol with
  | None => None
  | Some e =>
      match Etf.prices e with
      | [] => None
      | _ :: _ => price_scan (sort_by_ts (Etf.prices e)) ts
      end
  end.

(** ** Calculations *)

Record Totals : Type :=
  mkTotals { invested : number; current : number; pl : number; plPct : number }.

(** [if (unit != null) acc += qty * unit]. *)
Definition add_priced (acc : number) (qty : number) (unit : option number) : number :=
  match unit with
  | Some u => fadd acc (fmul qty u)
  | None => acc
  end.

(** One turn of the loop of [computeTotals] over the pair
    [(invested, current)]. *)
Definition totals_step (etfs : list Etf.t) (acc : number * number) (p : Purchase.t)
  : number * number :=
  let unitAtBuy := priceAt etfs (Purchase.symbol p) (Purchase.ts p) in
  let unitNow := latestPrice etfs (Purchase.symbol p) in
  (add_priced (fst acc) (Purchase.qty p) unitAtBuy,
   add_priced (snd acc) (Purchase.qty p) unitNow).

Definition computeTotals (etfs : list Etf.t) (purchases : list Purchase.t) : Totals :=
  let acc := fold_left (totals_step etfs) purchases (zero, zero) in
  let invested := fst acc in
  let current := snd acc in
  let pl := fsub current invested in
  let plPct := if fgt invested zero then fmul (fdiv pl invested) (num 100) else zero in
  mkTotals invested current pl plPct.

(** ** Goal projection *)

(** [+x || 0] on a number: a falsy number ([0], [-0] or [NaN]) is
    replaced by [0]. *)
Definition num_or_zero (x : number) : number := if falsy x then zero else x.

(** [Math.max(0, t)]: [NaN] for [NaN], [0] for [-0]. *)
Definition Math_max0 (t : number) : number :=
  match t with
  | S754_nan => NaN
  | _ => if fgt t zero then t else zero
  end.

(** The result is a number: a whole number of months or [Infinity]. *)
Definition monthsToReach (target monthly : number) : number :=
  let t := num_or_zero target in
  let m := num_or_zero monthly in
  if fle m zero then infinity
  else
    let remaining := Math_max0 t in
    Math_ceil (fdiv remaining m).

(** ** Portfolio chart: timeline and invested series *)

(** [times.add(t)] on a [Set], which keeps insertion order. *)
Definition set_add (s : list Z) (t : Z) : list Z :=
  if existsb (Z.eqb t) s then s else s ++ [t].

(** [etfs.forEach(e => (e.prices||[]).forEach(p => times.add(p.ts)));
     purchases.forEach(p => times.add(p.ts));] *)
Definition collect_times (etfs : list Etf.t) (purchases : list Purchase.t) : list Z :=
  let times :=
    fold_left (fun times e => fold_left (fun times p => set_add times (Obs.ts p))
                                        (Etf.prices e) times)
              etfs [] in
  fold_left (fun times p => set_add times (Purchase.ts p)) purchases times.

(** [.sort((a,b)=>a-b)] on numbers. *)
Definition sort_num (l : list Z) : list Z := sort_by (fun t : Z => t) l.

(** The [points] of [renderPortfolioChart]; [from] and [to] are [null]
    when the date inputs are empty. *)
Definition points (etfs : list Etf.t) (purchases : list Purchase.t)
  (from to : option Z) : list Z :=
  let points := sort_num (collect_times etfs purchases) in
  let points := match from with
                | Some f => filter (fun t => t >=? f) points
                | None => points
                end in
  match to with
  | Some u => filter (fun t => t <=? u) points
  | None => points
  end.

(** The body of the callback of [seriesInvested] at sample [t], on the
    running [investedTotal] that is declared outside the callback. *)
Definition invested_pass (etfs : list Etf.t) (purchases : list Purchase.t)
  (investedTotal : number) (t : Z) : number :=
  fold_left
    (fun acc p =>
       add_priced acc (Purchase.qty p)
                  (priceAt etfs (Purchase.symbol p) (Purchase.ts p)))
    (filter (fun p => Purchase.ts p <=? t) purchases)
    investedTotal.

(** [points.map(t => { ...; return { x: t, y: investedTotal }; })] started
    with the given [investedTotal]. *)
Fixpoint seriesInvested_from (etfs : list Etf.t) (purchases : list Purchase.t)
  (investedTotal : number) (points : list Z) : list (Z * number) :=
  match points with
  | [] => []
  | t :: rest =>
      let investedTotal := invested_pass etfs purchases investedTotal t in
      (t, investedTotal) :: seriesInvested_from etfs purchases investedTotal rest
  end.

(** [let investedTotal = 0; const seriesInvested = points.map(...)]. *)
Definition seriesInvested (etfs : list Etf.t) (purchases : list Purchase.t)
  (points : list Z) : list (Z * number) :=
  seriesInvested_from etfs purchases zero points.

(** ** The specification's valuation functions

    These follow the wording of the specification, not the code; the
    code above is compared with them. *)

(** A sum of numbers: the terms are added one after the other, in the
    order of the list, starting from [0].  Each addition rounds, so the
    order is part of the meaning. *)
Definition sum_in_order (l : list number) : number := fold_left fadd l zero.

(** [quantity * price] for each purchase, in the order of the purchases;
    a purchase whose price is null is skipped. *)
Definition amounts (unit : Purchase.t -> option number) (purchases : list Purchase.t)
  : list number :=
  flat_map (fun p => match unit p with
                     | Some u => [fmul (Purchase.qty p) u]
                     | None => []
                     end)
           purchases.

(** [costBasis]: the sum over all purchases of
    [quantity * priceAt(instrument, purchase.timestamp)]. *)
Definition costBasis (etfs : list Etf.t) (purchases : list Purchase.t) : number :=
  sum_in_order (amounts (fun p => priceAt etfs (Purchase.symbol p) (Purchase.ts p)) purchases).

(** [currentValue]: the sum over all purchases of
    [quantity * latestPrice(instrument)]. *)
Definition currentValue (etfs : list Etf.t) (purchases : list Purchase.t) : number :=
  sum_in_order (amounts (fun p => latestPrice etfs (Purchase.symbol p)) purchases).

(** [investedAt]: the cost basis of the purchases with [timestamp <= t]. *)
Definition investedAt (etfs : list Etf.t) (purchases : list Purchase.t) (t : Z) : number :=
  costBasis etfs (filter (fun p => Purchase.ts p <=? t) purchases).

(** [p] is a latest observation of [prices] at or before [t]. *)
Definition latest_as_of (prices : list Obs.t) (t : Z) (p : Obs.t) : Prop :=
  In p prices /\ Obs.ts p <= t /\
  forall q, In q prices -> Obs.ts q <= t -> Obs.ts q <= Obs.ts p.

(** [p] is an observation of [prices] closest to [t], and the earliest
    of those that are as close. *)
Definition nearest_to (prices : list Obs.t) (t : Z) (p : Obs.t) : Prop :=
  In p prices /\
  (forall q, In q prices -> Z.abs (Obs.ts p - t) <= Z.abs (Obs.ts q - t)) /\
  (forall q, In q prices -> Z.abs (Obs.ts q - t) = Z.abs (Obs.ts p - t) ->
             Obs.ts p <= Obs.ts q).

(** [p] is an observation of [prices] of maximum timestamp. *)
Definition max_ts_obs (prices : list Obs.t) (p : Obs.t) : Prop :=
  In p prices /\ forall q, In q prices -> Obs.ts q <= Obs.ts p.

(** The timestamps the timeline is built from: every price observation of
    every instrument and every purchase. *)
Definition event_time (etfs : list Etf.t) (purchases : list Purchase.t) (t : Z) : Prop :=
  (exists e p, In e etfs /\ In p (Etf.prices e) /\ Obs.ts p = t) \/
  (exists p, In p purchases /\ Purchase.ts p = t).

(** ** Import

    [importAll] reads a file and, in [reader.onload], replaces the four
    state variables and their persisted copies.  Values are JSON values;
    [undefined] is [None]; exceptions and the mutable state are threaded
    through a small monad in which a state change made before a [throw]
    stays made. *)
Module App.

#[warnings="-register-all"]
Inductive json : Type :=
| JNull
| JBool (b : bool)
| JNum (n : number)
| JStr (s : string)
| JArr (items : list json)
| JObj (fields : list (string * json)).

Inductive Exn : Type :=
| SyntaxError              (* thrown by JSON.parse *)
| TypeError                (* property access on null *)
| Error (msg : string)     (* new Error(msg) *)
| RenderError.             (* anything thrown while re-rendering *)

(** The two [alert] texts of [importAll]. *)
Inductive Alert : Type :=
| ImportSucceeded   (* 'Імпорт виконано успішно' *)
| ImportFailed.     (* 'Не вдалося імпортувати файл. Перевірте формат.' *)

(** The key of [LS_KEYS] a value is stored under. *)
Inductive LsKey : Type := sip_etfs | sip_purchases | sip_goals | sip_ui.

Definition LsKey_eqb (a b : LsKey) : bool :=
  match a, b with
  | sip_etfs, sip_etfs | sip_purchases, sip_purchases
  | sip_goals, sip_goals | sip_ui, sip_ui => true
  | _, _ => false
  end.

Record State : Type :=
  mkState { etfs : json;
            purchases : json;
            goals : json;
            ui : json;
            localStorage : list (LsKey * string);
            alerts : list Alert;
            console : list Exn }.

Definition M (A : Type) : Type := State -> (Exn + A) * State.

Definition ret {A : Type} (a : A) : M A := fun s => (inr a, s).

Definition bind {A B : Type} (m : M A) (k : A -> M B) : M B :=
  fun s => match m s with
           | (inl e, s') => (inl e, s')
           | (inr a, s') => k a s'
           end.

Definition throw {A : Type} (e : Exn) : M A := fun s => (inl e, s).

Definition gets {A : Type} (f : State -> A) : M A := fun s => (inr (f s), s).

Definition modify (f : State -> State) : M unit := fun s => (inr tt, f s).

(** [try { body } catch (err) { handler(err) }]. *)
Definition try_catch (body : M unit) (handler : Exn -> M unit) : M unit :=
  fun s => match body s with
           | (inl e, s') => handler e s'
           | (inr tt, s') => (inr tt, s')
           end.

Declare Scope js_scope.
Delimit Scope js_scope with js.
Notation "'let*' x ':=' m 'in' k" := (bind m (fun x => k))
  (at level 10, x name, m at level 100, k at level 200) : js_scope.
Notation "m ;;; k" := (bind m (fun _ => k))
  (at level 100, k at level 200, right associativity) : js_scope.
Local Open Scope js_scope.

(** Truthiness of a value; [undefined] is falsy. *)
Definition truthy (v : option json) : bool :=
  match v with
  | None | Some JNull => false
  | Some (JBool b) => b
  | Some (JNum n) => negb (falsy n)
  | Some (JStr s) => negb (String.eqb s "")
  | Some (JArr _) | Some (JObj _) => true
  end.

(** [typeof v === 'object']. *)
Definition typeof_object (v : json) : bool :=
  match v with
  | JNull | JArr _ | JObj _ => true
  | _ => false
  end.

Definition isArray (v : option json) : bool :=
  match v with
  | Some (JArr _) => true
  | _ => false
  end.

Fixpoint lookup (k : string) (fields : list (string * json)) : option json :=
  match fields with
  | [] => None
  | (k', v) :: rest => if String.eqb k' k then Some v else lookup k rest
  end.

Fixpoint assign (k : string) (v : json) (fields : list (string * json))
  : list (string * json) :=
  match fields with
  | [] => [(k, v)]
  | (k', v') :: rest =>
      if String.eqb k' k then (k, v) :: rest else (k', v') :: assign k v rest
  end.

(** [v.k] for one of the property names read here ([etfs], [purchases],
    [goals], [ui], [expandedEtfs], [active]): a [TypeError] on [null],
    the field of an object, [undefined] on anything else. *)
Definition get_prop (v : json) (k : string) : M (option json) :=
  match v with
  | JNull => throw TypeError
  | JObj fields => ret (lookup k fields)
  | _ => ret None
  end.

(** [v.k = x] in sloppy mode: a [TypeError] on [null], silently nothing
    on a primitive; an expando property of an array is not part of its
    JSON value. *)
Definition set_prop (v : json) (k : string) (x : json) : M json :=
  match v with
  | JNull => throw TypeError
  | JObj fields => ret (JObj (assign k x fields))
  | _ => ret v
  end.

(** [a || b]. *)
Definition or_else (a : option json) (b : json) : json :=
  match a with
  | Some v => if truthy a then v else b
  | None => b
  end.

(** [ui.active || 'etfs'] on a value of [ui] other than [null]: the tab
    shown after an import. *)
Definition active_tab (u : json) : json :=
  or_else (match u with
           | JObj fields => lookup "active" fields
           | _ => None
           end)
          (JStr "etfs").

Fixpoint ls_set (k : LsKey) (raw : string) (ls : list (LsKey * string))
  : list (LsKey * string) :=
  match ls with
  | [] => [(k, raw)]
  | (k', raw') :: rest =>
      if LsKey_eqb k' k then (k, raw) :: rest else (k', raw') :: ls_set k raw rest
  end.

Section ImportAll.
(** [JSON.parse], [None] when it throws, and [JSON.stringify]. *)
Variable JSON_parse : string -> option json.
Variable JSON_stringify : json -> string.
(** Re-rendering that only touches the page ([refreshPurchaseSymbols],
    [renderPurchases], [renderDashboard] and the DOM work of [setActiveTab]
    and of [renderEtfs]); it may throw. *)
Variable render : State -> option Exn.
(** [items.sort((a, b) => a.symbol.localeCompare(b.symbol))] on the
    elements of an array: the order the sort leaves them in and, when a
    comparison throws, what it throws. *)
Variable sort_by_symbol : list json -> list json * option Exn.

(** [storage.set(key, val)]. *)
Definition storage_set (key : LsKey) (val : json) : M unit :=
  modify (fun s =>
    mkState (etfs s) (purchases s) (goals s) (ui s)
            (ls_set key (JSON_stringify val) (localStorage s))
            (alerts s) (console s)).

Definition saveEtfs : M unit := let* v := gets etfs in storage_set sip_etfs v.
Definition savePurchases : M unit :=
  let* v := gets purchases in storage_set sip_purchases v.
Definition saveGoals : M unit := let* v := gets goals in storage_set sip_goals v.
Definition saveUi : M unit := let* v := gets ui in storage_set sip_ui v.

Definition set_etfs (v : json) : M unit :=
  modify (fun s => mkState v (purchases s) (goals s) (ui s)
                           (localStorage s) (alerts s) (console s)).
Definition set_purchases (v : json) : M unit :=
  modify (fun s => mkState (etfs s) v (goals s) (ui s)
                           (localStorage s) (alerts s) (console s)).
Definition set_goals (v : json) : M unit :=
  modify (fun s => mkState (etfs s) (purchases s) v (ui s)
                           (localStorage s) (alerts s) (console s)).
Definition set_ui (v : json) : M unit :=
  modify (fun s => mkState (etfs s) (purchases s) (goals s) v
                           (localStorage s) (alerts s) (console s)).

Definition alert (a : Alert) : M unit :=
  modify (fun s => mkState (etfs s) (purchases s) (goals s) (ui s)
                           (localStorage s) (alerts s ++ [a]) (console s)).

Definition console_error (e : Exn) : M unit :=
  modify (fun s => mkState (etfs s) (purchases s) (goals s) (ui s)
                           (localStorage s) (alerts s) (console s ++ [e])).

(** The DOM work of a rendering step: it reads the state, changes none of
    the state variables, and may throw.  The one statement of the
    rendering code that writes to a state variable, the in-place sort of
    [renderEtfs], is modelled apart, below. *)
Definition do_render : M unit :=
  fun s => match render s with
           | Some e => (inl e, s)
           | None => (inr tt, s)
           end.

(** [renderEtfs()]: between the DOM work on the form and on the list,
    [etfs.sort(...)] sorts the array the variable [etfs] refers to in
    place; on a value that is not an array, [etfs.sort] is not a function. *)
Definition renderEtfs : M unit :=
  do_render ;;;
  let* e := gets etfs in
  match e with
  | JArr items =>
      let (sorted, thrown) := sort_by_symbol items in
      set_etfs (JArr sorted) ;;;
      match thrown with
      | Some err => throw err
      | None => do_render
      end
  | _ => throw TypeError
  end.

(** [tab === 'etfs']. *)
Definition is_etfs (tab : json) : bool :=
  match tab with
  | JStr s => String.eqb s "etfs"
  | _ => false
  end.

(** [setActiveTab(tab)]: [ui.active = tab; saveUi();], the DOM work on
    the tabs, and the rendering of the tab; the tabs other than ['etfs']
    render without changing the state. *)
Definition setActiveTab (tab : json) : M unit :=
  let* u := gets ui in
  let* u' := set_prop u "active" tab in
  set_ui u' ;;;
  saveUi ;;;
  do_render ;;;
  if is_etfs tab then renderEtfs else do_render.

(** The body of the [try] block of [reader.onload]. *)
Definition import_body (result : string) : M unit :=
  match JSON_parse result with
  | None => throw SyntaxError
  | Some data =>
      if negb (truthy (Some data)) || negb (typeof_object data)
      then throw (Error "Invalid file")
      else
        let* d_etfs := get_prop data "etfs" in
        let* d_purchases := get_prop data "purchases" in
        if negb (isArray d_etfs) || negb (isArray d_purchases)
        then throw (Error "Invalid content")
        else
          set_etfs (or_else d_etfs (JArr [])) ;;;
          set_purchases (or_else d_purchases (JArr [])) ;;;
          let* d_goals := get_prop data "goals" in
          set_goals (match d_goals with
                     | Some (JArr items) => JArr items
                     | _ => JArr []
                     end) ;;;
          let* d_ui := get_prop data "ui" in
          let* old_ui := gets ui in
          set_ui (or_else d_ui old_ui) ;;;
          let* u := gets ui in
          let* expanded := get_prop u "expandedEtfs" in
          (if negb (isArray expanded)
           then let* u' := set_prop u "expandedEtfs" (JArr []) in set_ui u'
           else ret tt) ;;;
          saveEtfs ;;; savePurchases ;;; saveGoals ;;; saveUi ;;;
          do_render ;;;
          let* u := gets ui in
          let* active := get_prop u "active" in
          setActiveTab (or_else active (JStr "etfs")) ;;;
          alert ImportSucceeded
  end.

(** [reader.onload], with [reader.result] the text of the file. *)
Definition importAll (result : string) : M unit :=
  try_catch (import_body result)
            (fun err => console_error err ;;; alert ImportFailed).

(** The validation the specification asks of an imported document:
    it parses, and its [etfs] and [purchases] fields are arrays. *)
Definition valid_document (result : string) : Prop :=
  exists fields e p,
    JSON_parse result = Some (JObj fields) /\
    lookup "etfs" fields = Some (JArr e) /\
    lookup "purchases" fields = Some (JArr p).

(** [localStorage.getItem(key)], [None] for [null]. *)
Fixpoint ls_get (k : LsKey) (ls : list (LsKey * string)) : option string :=
  match ls with
  | [] => None
  | (k', raw) :: rest => if LsKey_eqb k' k then Some raw else ls_get k rest
  end.

(** [storage.get(key, fallback)]:
    [try { const raw = localStorage.getItem(key);
           return raw ? JSON.parse(raw) : fallback; }
     catch (_) { return fallback; }]. *)
Definition storage_get (key : LsKey) (fallback : json) : M json :=
  gets (fun s =>
    match ls_get key (localStorage s) with
    | None => fallback
    | Some raw =>
        if String.eqb raw "" then fallback
        else match JSON_parse raw with
             | Some v => v
             | None => fallback
             end
    end).

(** [{ active: 'etfs', expandedEtfs: [] }]. *)
Definition default_ui : json :=
  JObj [("active"%string, JStr "etfs"); ("expandedEtfs"%string, JArr [])].

(** [if (!Array.isArray(ui.expandedEtfs)) ui.expandedEtfs = [];]. *)
Definition fix_expandedEtfs : M unit :=
  let* u := gets ui in
  let* expanded := get_prop u "expandedEtfs" in
  if negb (isArray expanded)
  then let* u' := set_prop u "expandedEtfs" (JArr []) in set_ui u'
  else ret tt.

Definition reloadState : M unit :=
  (let* v := storage_get sip_etfs (JArr []) in set_etfs v) ;;;
  (let* v := storage_get sip_purchases (JArr []) in set_purchases v) ;;;
  (let* v := storage_get sip_goals (JArr []) in set_goals v) ;;;
  (let* g := gets goals in
   if negb (isArray (Some g)) then set_goals (JArr []) else ret tt) ;;;
  (let* v := storage_get sip_ui default_ui in set_ui v) ;;;
  fix_expandedEtfs.
End ImportAll.

End App.

(** ** The stored arrays

    To say that a lookup leaves the stored data alone, arrays are objects
    in a store: an instrument holds a reference to its [prices] array,
    [[...a]] allocates a new array and [a.sort(...)] sorts the array [a]
    refers to in place. *)
Module Heap.

Record EtfObj : Type :=
  mkEtf { symbol : string; name : string; prices : option nat }.

Record World : Type :=
  mkWorld { arrays : list (list Obs.t);
            etfs : list EtfObj;
            purchases : list Purchase.t }.

(** The elements of the array at reference [r]. *)
Definition read (w : World) (r : nat) : list Obs.t := nth r (arrays w) [].

Fixpoint set_nth {A : Type} (n : nat) (x : A) (l : list A) : list A :=
  match l, n with
  | [], _ => []
  | _ :: l', O => x :: l'
  | y :: l', S n' => y :: set_nth n' x l'
  end.

(** [[...a]]: a new array with the elements of [a]. *)
Definition spread (r : nat) (w : World) : nat * World :=
  (List.length (arrays w),
   mkWorld (arrays w ++ [read w r]) (etfs w) (purchases w)).

(** [a.sort((x, y) => x.ts - y.ts)]: sorts [a] in place and returns it. *)
Definition sort_in_place (r : nat) (w : World) : nat * World :=
  (r, mkWorld (set_nth r (sort_by_ts (read w r)) (arrays w)) (etfs w) (purchases w)).

Definition find_etf (w : World) (symbol : string) : option EtfObj :=
  find (fun x => String.eqb (Heap.symbol x) symbol) (etfs w).

Definition latestPrice (symbol : string) (w : World) : option number * World :=
  match find_etf w symbol with
  | None => (None, w)
  | Some e =>
      match prices e with
      | None => (None, w)
      | Some r =>
          match read w r with
          | [] => (None, w)
          | a :: rest => (Some (Obs.price (reduce_latest a rest)), w)
          end
      end
  end.

Definition priceAt (symbol : string) (ts : Z) (w : World) : option number * World :=
  match find_etf w symbol with
  | None => (None, w)
  | Some e =>
      match prices e with
      | None => (None, w)
      | Some r =>
          match read w r with
          | [] => (None, w)
          | _ :: _ =>
              let (copy, w1) := spread r w in
              let (sorted, w2) := sort_in_place copy w1 in
              (price_scan (read w2 sorted) ts, w2)
          end
      end
  end.

(** One turn of the loop of [computeTotals]. *)
Definition totals_step (acc : number * number * World) (p : Purchase.t)
  : number * number * World :=
  let '(invested, current, w) := acc in
  let (unitAtBuy, w1) := priceAt (Purchase.symbol p) (Purchase.ts p) w in
  let (unitNow, w2) := latestPrice (Purchase.symbol p) w1 in
  (add_priced invested (Purchase.qty p) unitAtBuy,
   add_priced current (Purchase.qty p) unitNow, w2).

Definition computeTotals (w : World) : Totals * World :=
  let '(invested, current, w') :=
    fold_left totals_step (purchases w) (zero, zero, w) in
  let pl := fsub current invested in
  let plPct := if fgt invested zero then fmul (fdiv pl invested) (num 100) else zero in
  (mkTotals invested current pl plPct, w').

(** The instruments of a world as values: each reference replaced by the
    elements it refers to, a missing [prices] by the empty array. *)
Definition view_etf (w : World) (e : EtfObj) : Etf.t :=
  Etf.mk (symbol e) (name e)
         (match prices e with Some r => read w r | None => [] end).

Definition view (w : World) : list Etf.t := map (view_etf w) (etfs w).

(** Nothing that existed in [w] differs in [w']: the same instruments and
    purchases, and every array of [w] with the same elements in the same
    order; [w'] may hold new arrays. *)
Definition preserved (w w' : World) : Prop :=
  etfs w' = etfs w /\ purchases w' = purchases w /\
  exists fresh, arrays w' = arrays w ++ fresh.

(** Every [prices] reference of an instrument refers to an array of the
    store. *)
Definition well_formed (w : World) : Prop :=
  forall e r, In e (etfs w) -> prices e = Some r ->
              (r < List.length (arrays w))%nat.

End Heap.

(** ** Editing instruments *)

(** The submit handler of the add-instrument form, on the trimmed,
    upper-cased [symbol] and the trimmed [name], up to the re-rendering it
    ends with (which sorts the array: a reordering); the second component
    tells whether the duplicate-symbol alert was shown. *)
Definition addEtf (etfs : list Etf.t) (symbol name : string) : list Etf.t * bool :=
  if String.eqb symbol "" || String.eqb name "" then (etfs, false)
  else if existsb (fun x => String.eqb (Etf.symbol x) symbol) etfs then (etfs, true)
  else (etfs ++ [Etf.mk symbol name []], false).

(** The delete handler of an instrument, once confirmed and up to the
    re-rendering it ends with:
    [etfs = etfs.filter((x) => x.symbol !== e.symbol)] and the same on
    [ui.expandedEtfs]. *)
Definition deleteEtf (etfs : list Etf.t) (expandedEtfs : list string)
  (symbol : string) : list Etf.t * list string :=
  (filter (fun x => negb (String.eqb (Etf.symbol x) symbol)) etfs,
   filter (fun s => negb (String.eqb s symbol)) expandedEtfs).

(** The submit handler of the add-price form of instrument [e], up to the
    re-rendering it ends with, with the parsed timestamp [ts] and
    [priceVal] the result of [parseFloat]:
    [if (!isFinite(priceVal) || priceVal < 0) return;
     e.prices.push({ ts, price }); e.prices.sort((a, b) => a.ts - b.ts)]. *)
Definition addPrice (e : Etf.t) (ts : Z) (priceVal : number) : Etf.t :=
  if negb (isFinite priceVal) || flt priceVal zero then e
  else Etf.mk (Etf.symbol e) (Etf.name e)
              (sort_by_ts (Etf.prices e ++ [Obs.mk ts priceVal])).

(** ** Editing purchases *)

(** [!isFinite(x) || x <= 0] on a result of [parseFloat]. *)
Definition not_positive (x : number) : bool := negb (isFinite x) || fle x zero.

(** [isFinite(x) && x > 0]. *)
Definition positive (x : number) : bool := isFinite x && fgt x zero.

(** The submit handler of the add-purchase form, with the selected
    [symbol], the parsed timestamp and the two parsed number inputs; the
    second component tells whether the no-price alert was shown:
    [if ((!isFinite(qty) || qty <= 0) && isFinite(sum) && sum > 0) {
       const unit = priceAt(symbol, ts);
       if (unit == null || unit <= 0) { alert(...); return; }
       qty = sum / unit; }
     if (!symbol || !isFinite(qty) || qty <= 0) return;
     purchases.push({ symbol, ts, qty });]. *)
Definition submitPurchase (etfs : list Etf.t) (purchases : list Purchase.t)
  (symbol : string) (ts : Z) (qtyVal sumVal : number)
  : list Purchase.t * bool :=
  let push (qty : number) :=
    if String.eqb symbol "" || not_positive qty then (purchases, false)
    else (purchases ++ [Purchase.mk ts symbol qty], false) in
  if not_positive qtyVal && positive sumVal then
    match priceAt etfs symbol ts with
    | None => (purchases, true)
    | Some unit =>
        if fle unit zero then (purchases, true)
        else push (fdiv sumVal unit)
    end
  else push qtyVal.

(** The remove handler of a row of the purchase table, with [i] the result
    of [purchases.indexOf(p)]: [if (i >= 0) purchases.splice(i, 1)]. *)
Definition removePurchase (purchases : list Purchase.t) (i : Z) : list Purchase.t :=
  if i >=? 0
  then firstn (Z.to_nat i) purchases ++ skipn (S (Z.to_nat i)) purchases
  else purchases.

(** ** Expanding and collapsing an instrument *)

(** [l.splice(l.indexOf(sym), 1)] when [sym] is in [l]. *)
Fixpoint remove_first (sym : string) (l : list string) : list string :=
  match l with
  | [] => []
  | x :: l' => if String.eqb x sym then l' else x :: remove_first sym l'
  end.

(** The toggle handler of an instrument, on [ui.expandedEtfs]:
    [const idx = l.indexOf(sym);
     if (idx === -1) l.push(sym); else l.splice(idx, 1);]. *)
Definition toggleExpanded (expandedEtfs : list string) (sym : string) : list string :=
  if existsb (String.eqb sym) expandedEtfs
  then remove_first sym expandedEtfs
  else expandedEtfs ++ [sym].

(** ** Tables and charts *)

(** [arr.filter(p => p.ts >= from)] and [arr.filter(p => p.ts <= to)] when
    the bounds are not [null]. *)
Definition in_range {A : Type} (ts : A -> Z) (from to : option Z) (arr : list A)
  : list A :=
  let arr := match from with
             | Some f => filter (fun p => ts p >=? f) arr
             | None => arr
             end in
  match to with
  | Some u => filter (fun p => ts p <=? u) arr
  | None => arr
  end.

(** A timestamp is within a date range, both bounds included; a [null]
    bound does not bound. *)
Definition within (from to : option Z) (t : Z) : bool :=
  match from with Some f => f <=? t | None => true end
  && match to with Some u => t <=? u | None => true end.

(** The data of one dataset of [renderEtfChart]: the observations of the
    instrument in the range, by ascending timestamp, as points
    [{ x: p.ts, y: p.price }]; no instrument gives no point. *)
Definition etfChartData (etfs : list Etf.t) (sym : string) (from to : option Z)
  : list (Z * number) :=
  let data := match find_etf etfs sym with
              | Some e => Etf.prices e
              | None => []
              end in
  let data := in_range Obs.ts from to data in
  let data := sort_by_ts data in
  map (fun p => (Obs.ts p, Obs.price p)) data.

(** The rows of the purchase table, [renderRows]: the purchases of the
    selected symbol (all of them when the filter is empty) in the range,
    sorted with [(a, b) => asc ? a.ts - b.ts : b.ts - a.ts]. *)
Definition purchaseRows (purchases : list Purchase.t) (fSymbol : string)
  (from to : option Z) (asc : bool) : list Purchase.t :=
  let arr := if String.eqb fSymbol "" then purchases
             else filter (fun p => String.eqb (Purchase.symbol p) fSymbol) purchases in
  let arr := in_range Purchase.ts from to arr in
  if asc then sort_by Purchase.ts arr
  else sort_by (fun p => - Purchase.ts p) arr.

(** ** Grouped sums

    [byDay] of the purchases chart is a [Map] from day to amount, filled
    with [byDay.set(k, (byDay.get(k) || 0) + q)]: an existing key keeps
    its place, a new key goes last; a stored total that is falsy ([0],
    [-0] or [NaN]) counts as [0] when the next amount is added. *)
Section Grouping.
Context {K : Type} (eqb : K -> K -> bool).

Fixpoint bump (m : list (K * number)) (k : K) (q : number) : list (K * number) :=
  match m with
  | [] => [(k, fadd zero q)]
  | (k', v) :: rest =>
      if eqb k' k then (k', fadd (num_or_zero v) q) :: rest
      else (k', v) :: bump rest k q
  end.

(** [m.get(k)], [None] when the key is absent. *)
Fixpoint entry (m : list (K * number)) (k : K) : option number :=
  match m with
  | [] => None
  | (k', v) :: rest => if eqb k' k then Some v else entry rest k
  end.
End Grouping.

(** What a key holds once an amount is added under it:
    [(total || 0) + amount], with [total] undefined ([None]) while the key
    is absent. *)
Definition tally (total : option number) (amount : number) : option number :=
  Some (fadd (match total with
              | Some v => num_or_zero v
              | None => zero
              end) amount).

(** The total of the amounts of a day, added one after the other in this
    way; [None] when there is no amount. *)
Definition day_total (amounts : list number) : option number :=
  fold_left tally amounts None.

(** ** Purchases chart *)
Section PurchasesChart.
(** [new Date(new Date(ts).toDateString()).getTime()]: the local midnight
    that starts the day of [ts]. *)
Variable day_of : Z -> Z.

(** The callback of [purchases.forEach] in [renderPurchasesChart] for the
    dataset of [sym], with the bounds [cf] and [ct]. *)
Definition byDay_step (etfs : list Etf.t) (sym : string) (cf ct : option Z)
  (byDay : list (Z * number)) (p : Purchase.t) : list (Z * number) :=
  if negb (String.eqb (Purchase.symbol p) sym) then byDay
  else if match cf with Some f => Purchase.ts p <? f | None => false end then byDay
  else if match ct with Some u => Purchase.ts p >? u | None => false end then byDay
  else
    match priceAt etfs (Purchase.symbol p) (Purchase.ts p) with
    | None => byDay
    | Some unit =>
        bump Z.eqb byDay (day_of (Purchase.ts p)) (fmul (Purchase.qty p) unit)
    end.

(** The points of the dataset of [sym]:
    [Array.from(byDay.entries()).sort((a,b)=>a[0]-b[0])]. *)
Definition purchasesChartData (etfs : list Etf.t) (purchases : list Purchase.t)
  (sym : string) (cf ct : option Z) : list (Z * number) :=
  sort_by fst (fold_left (byDay_step etfs sym cf ct) purchases []).

(** The purchases the dataset of [sym] is about: those of the symbol, in
    the range, that have a price. *)
Definition charted (etfs : list Etf.t) (sym : string) (cf ct : option Z)
  (p : Purchase.t) : bool :=
  String.eqb (Purchase.symbol p) sym
  && match cf with Some f => negb (Purchase.ts p <? f) | None => true end
  && match ct with Some u => negb (Purchase.ts p >? u) | None => true end
  && match priceAt etfs (Purchase.symbol p) (Purchase.ts p) with
     | Some _ => true
     | None => false
     end.
End PurchasesChart.

(** ** Example data for the import

    A document with the instruments ZZZ and AAA, in this order, and no
    purchase; a serializer that writes an array as the symbols of its
    elements and anything else as [{}]; a parser that reads the texts of
    the serializer back and any other text as the document; and, for
    [sort_by_symbol], a stable sort by the code points of the symbols,
    which is how [localeCompare] orders upper-case ASCII symbols. *)
Definition example_ZZZ : App.json := App.JObj [("symbol"%string, App.JStr "ZZZ")].

Definition example_json_AAA : App.json :=
  App.JObj [("symbol"%string, App.JStr "AAA")].

Definition example_document : App.json :=
  App.JObj [("etfs"%string, App.JArr [example_ZZZ; example_json_AAA]);
            ("purchases"%string, App.JArr [])].

Definition example_symbol (v : App.json) : string :=
  match v with
  | App.JObj ((_, App.JStr s) :: _) => s
  | _ => EmptyString
  end.

Fixpoint example_symbols (items : list App.json) : string :=
  match items with
  | [] => EmptyString
  | v :: rest => example_symbol v ++ "," ++ example_symbols rest
  end.

Definition example_stringify (v : App.json) : string :=
  match v with
  | App.JArr items => "[" ++ example_symbols items ++ "]"
  | _ => "{}"
  end.

Definition example_doc_parse (raw : string) : option App.json :=
  if String.eqb raw "[ZZZ,AAA,]" then Some (App.JArr [example_ZZZ; example_json_AAA])
  else if String.eqb raw "[]" then Some (App.JArr [])
  else if String.eqb raw "{}" then Some App.default_ui
  else Some example_document.

Fixpoint example_insert (x : App.json) (l : list App.json) : list App.json :=
  match l with
  | [] => [x]
  | y :: l' =>
      if String.leb (example_symbol x) (example_symbol y) then x :: l
      else y :: example_insert x l'
  end.

Definition example_sort (items : list App.json) : list App.json * option App.Exn :=
  (fold_right example_insert [] items, None).

(** ** Vocabulary of the proofs *)

(** The last element of a list, if any. *)
Fixpoint last_opt {A : Type} (l : list A) : option A :=
  match l with
  | [] => None
  | x :: l' => match last_opt l' with
               | None => Some x
               | Some y => Some y
               end
  end.

(** Ascending by [key], equal keys allowed. *)
Definition key_sorted {A : Type} (key : A -> Z) (l : list A) : Prop :=
  StronglySorted (fun a b => key a <= key b) l.

(** [prices.reduce(later_of)], [None] on the empty array (where the code
    does not call it). *)
Definition latest_obs (prices : list Obs.t) : option Obs.t :=
  match prices with
  | [] => None
  | a :: rest => Some (reduce_latest a rest)
  end.

(** The running totals of a list of lists of numbers: after each list,
    the total of all the numbers so far, added one after the other. *)
Fixpoint running_sums (acc : number) (ls : list (list number)) : list number :=
  match ls with
  | [] => []
  | l :: ls' =>
      let acc := fold_left fadd l acc in
      acc :: running_sums acc ls'
  end.

(** ** Example data

    The scenario of the specification: instrument AAA observed at
    (100, 10) and (200, 20), 5 units bought at 150; the same instrument
    with its observations stored latest first; a purchase of a symbol
    that has no instrument. *)
Definition example_AAA : Etf.t :=
  Etf.mk "AAA" "AAA" [Obs.mk 100 (num 10); Obs.mk 200 (num 20)].

Definition example_AAA_reversed : Etf.t :=
  Etf.mk "AAA" "AAA" [Obs.mk 200 (num 20); Obs.mk 100 (num 10)].

Definition example_purchase : Purchase.t := Purchase.mk 150 "AAA" (num 5).

Definition example_orphan : Purchase.t := Purchase.mk 150 "ZZZ" (num 7).

(** A second instrument, observed once at (500, 5), with 2 units bought
    at 150, and a second purchase of AAA, 3 units at 160. *)
Definition example_BBB : Etf.t := Etf.mk "BBB" "b" [Obs.mk 500 (num 5)].

Definition example_BBB_purchase : Purchase.t := Purchase.mk 150 "BBB" (num 2).

Definition example_second_purchase : Purchase.t := Purchase.mk 160 "AAA" (num 3).

(** A store holding AAA with its observations latest first. *)
Definition example_world : Heap.World :=
  Heap.mkWorld [[Obs.mk 200 (num 20); Obs.mk 100 (num 10)]]
               [Heap.mkEtf "AAA" "AAA" (Some 0%nat)]
               [example_purchase].

(** A document with an [etfs] array and no [purchases], as a parser that
    returns it for every text, and the state it is imported into. *)
Definition example_parse (result : string) : option App.json :=
  Some (App.JObj [("etfs"%string, App.JArr [])]).

Definition example_state : App.State :=
  App.mkState (App.JArr [App.JNum (num 1)]) (App.JArr []) (App.JArr [])
              (App.JObj [("active"%string, App.JStr "etfs")]) [] [] [].

(** * Properties *)

(** ** The stable sort *)
Section StableSortFacts.
Context {A : Type} (key : A -> Z).

Lemma insert_by_perm (x : A) (l : list A) :
  Permutation (insert_by key x l) (x :: l).
Proof.
  induction l as [|y l IH]; simpl.
  - apply Permutation_refl.
  - destruct (key x <=? key y).
    + apply Permutation_refl.
    + apply perm_trans with (y :: x :: l).
      * apply perm_skip. exact IH.
      * apply perm_swap.
Qed.

Lemma sort_by_perm (l : list A) : Permutation (sort_by key l) l.
Proof.
  induction l as [|x l IH]; simpl.
  - apply perm_nil.
  - apply perm_trans with (x :: sort_by key l).
    + apply insert_by_perm.
    + apply perm_skip. exact IH.
Qed.

Lemma sort_by_In (l : list A) (x : A) : In x (sort_by key l) <-> In x l.
Proof.
  split; apply Permutation_in.
  - apply sort_by_perm.
  - apply Permutation_sym, sort_by_perm.
Qed.

Lemma key_sorted_inv (x : A) (l : list A) :
  key_sorted key (x :: l) ->
  key_sorted key l /\ forall y, In y l -> key x <= key y.
Proof.
  intros H. inversion H as [|a l' Hs Hall]; subst. split.
  - exact Hs.
  - intros y Hy. rewrite Forall_forall in Hall. apply Hall, Hy.
Qed.

Lemma key_sorted_cons (x : A) (l : list A) :
  key_sorted key l -> (forall y, In y l -> key x <= key y) ->
  key_sorted key (x :: l).
Proof.
  intros Hs Hall. constructor.
  - exact Hs.
  - apply Forall_forall. exact Hall.
Qed.

Lemma insert_by_sorted (x : A) (l : list A) :
  key_sorted key l -> key_sorted key (insert_by key x l).
Proof.
  induction l as [|y l IH]; intros Hs; simpl.
  - apply key_sorted_cons; [constructor | intros ? []].
  - apply key_sorted_inv in Hs as [Hs Hy].
    destruct (key x <=? key y) eqn:E.
    + apply Z.leb_le in E. apply key_sorted_cons.
      * apply key_sorted_cons; assumption.
      * intros z [<- | Hz]; [exact E | specialize (Hy z Hz); lia].
    + apply Z.leb_gt in E. apply key_sorted_cons.
      * apply IH, Hs.
      * intros z Hz. apply (Permutation_in _ (insert_by_perm x l)) in Hz.
        destruct Hz as [<- | Hz]; [lia | apply Hy, Hz].
Qed.

Lemma sort_by_sorted (l : list A) : key_sorted key (sort_by key l).
Proof.
  induction l as [|x l IH]; simpl.
  - constructor.
  - apply insert_by_sorted, IH.
Qed.

(** An element no later than the head goes in front. *)
Lemma insert_by_front (x : A) (l : list A) :
  (forall y, In y l -> key x <= key y) -> insert_by key x l = x :: l.
Proof.
  destruct l as [|y l]; intros H; simpl.
  - reflexivity.
  - assert (E : (key x <=? key y) = true) by (apply Z.leb_le, H; left; reflexivity).
    rewrite E. reflexivity.
Qed.

(** Filtering commutes with insertion into a sorted list... *)
Lemma filter_insert_by (f : A -> bool) (x : A) (l : list A) :
  key_sorted key l ->
  filter f (insert_by key x l) =
  if f x then insert_by key x (filter f l) else filter f l.
Proof.
  induction l as [|y l IH]; intros Hs; simpl.
  - destruct (f x); reflexivity.
  - apply key_sorted_inv in Hs as [Hs Hy].
    destruct (key x <=? key y) eqn:E; simpl.
    + destruct (f x) eqn:Fx; [|reflexivity].
      symmetry. apply Z.leb_le in E.
      destruct (f y).
      * apply insert_by_front. intros z [<- | Hz]; [exact E|].
        apply filter_In in Hz as [Hz _]. specialize (Hy z Hz). lia.
      * apply insert_by_front. intros z Hz.
        apply filter_In in Hz as [Hz _]. specialize (Hy z Hz). lia.
    + rewrite (IH Hs). destruct (f y) eqn:Fy, (f x) eqn:Fx; simpl; try reflexivity.
      rewrite E. reflexivity.
Qed.

(** ... hence with the sort: the sort is stable. *)
Lemma filter_sort_by (f : A -> bool) (l : list A) :
  filter f (sort_by key l) = sort_by key (filter f l).
Proof.
  induction l as [|x l IH]; simpl.
  - reflexivity.
  - rewrite filter_insert_by by apply sort_by_sorted.
    rewrite IH. destruct (f x); reflexivity.
Qed.

Lemma last_opt_In (l : list A) (z : A) : last_opt l = Some z -> In z l.
Proof.
  revert z. induction l as [|x l IH]; intros z; simpl.
  - discriminate.
  - destruct (last_opt l) as [y|].
    + intros [= <-]. right. apply IH. reflexivity.
    + intros [= <-]. left. reflexivity.
Qed.

(** The last element after an insertion: the inserted element only when
    it is strictly later than the former last one. *)
Lemma last_opt_insert_by (x : A) (l : list A) :
  key_sorted key l ->
  last_opt (insert_by key x l) =
  match last_opt l with
  | None => Some x
  | Some y => if key x >? key y then Some x else Some y
  end.
Proof.
  induction l as [|y l IH]; intros Hs.
  - reflexivity.
  - pose proof (key_sorted_inv _ _ Hs) as [Hs' Hy].
    cbn [insert_by]. destruct (key x <=? key y) eqn:E.
    + apply Z.leb_le in E.
      change (last_opt (x :: y :: l)) with
        (match last_opt (y :: l) with None => Some x | Some z => Some z end).
      destruct (last_opt (y :: l)) as [z|] eqn:L; [|reflexivity].
      apply last_opt_In in L.
      assert (key y <= key z) by (destruct L as [<- | L]; [lia | apply Hy, L]).
      destruct (key x >? key z) eqn:G; [|reflexivity].
      apply Z.gtb_lt in G. lia.
    + apply Z.leb_gt in E. cbn [last_opt]. rewrite (IH Hs').
      destruct (last_opt l) as [z|]; [destruct (key x >? key z); reflexivity|].
      assert (G : (key x >? key y) = true) by (apply Z.gtb_lt; lia).
      rewrite G. reflexivity.
Qed.

(** With pairwise distinct keys a sorted list is strictly ascending. *)
Lemma key_sorted_strict (l : list A) :
  key_sorted key l -> NoDup (map key l) ->
  StronglySorted (fun a b => key a < key b) l.
Proof.
  induction l as [|x l IH]; intros Hs Hn.
  - constructor.
  - apply key_sorted_inv in Hs as [Hs Hx].
    inversion Hn as [|k ks Hnotin Hn']; subst.
    constructor.
    + apply IH; assumption.
    + apply Forall_forall. intros y Hy.
      specialize (Hx y Hy).
      assert (key x <> key y).
      { intros Heq. apply Hnotin. rewrite Heq. apply in_map, Hy. }
      lia.
Qed.

(** Two strictly ascending lists with the same elements are equal. *)
Lemma strict_sorted_perm_eq (l1 l2 : list A) :
  StronglySorted (fun a b => key a < key b) l1 ->
  StronglySorted (fun a b => key a < key b) l2 ->
  Permutation l1 l2 -> l1 = l2.
Proof.
  revert l2. induction l1 as [|a l1 IH]; intros l2 H1 H2 HP.
  - apply Permutation_nil in HP. subst. reflexivity.
  - destruct l2 as [|b l2].
    + apply Permutation_sym, Permutation_nil in HP. discriminate.
    + inversion H1 as [|? ? H1s H1a]; inversion H2 as [|? ? H2s H2a]; subst.
      rewrite Forall_forall in H1a, H2a.
      assert (Hab : a = b).
      { assert (Ha : In a (b :: l2)) by (apply (Permutation_in _ HP); left; reflexivity).
        assert (Hb : In b (a :: l1))
          by (apply (Permutation_in _ (Permutation_sym HP)); left; reflexivity).
        destruct Ha as [Ha | Ha]; [symmetry; exact Ha|].
        destruct Hb as [Hb | Hb]; [exact Hb|].
        specialize (H1a b Hb). specialize (H2a a Ha). lia. }
      subst b. f_equal. apply IH; try assumption.
      apply Permutation_cons_inv with a. exact HP.
Qed.

(** With pairwise distinct keys, the sorted list does not depend on the
    stored order. *)
Lemma sort_by_perm_invariant (l l' : list A) :
  NoDup (map key l) -> Permutation l l' -> sort_by key l = sort_by key l'.
Proof.
  intros Hn HP.
  assert (HP' : Permutation (sort_by key l) (sort_by key l')).
  { apply perm_trans with l; [apply sort_by_perm|].
    apply perm_trans with l'; [exact HP | apply Permutation_sym, sort_by_perm]. }
  apply strict_sorted_perm_eq; [| | exact HP'].
  - apply key_sorted_strict; [apply sort_by_sorted|].
    apply Permutation_NoDup with (map key l); [|exact Hn].
    apply Permutation_map, Permutation_sym, sort_by_perm.
  - apply key_sorted_strict; [apply sort_by_sorted|].
    apply Permutation_NoDup with (map key l); [|exact Hn].
    apply Permutation_map.
    apply perm_trans with l'; [exact HP | apply Permutation_sym, sort_by_perm].
Qed.

End StableSortFacts.

(** ** The price resolver *)

Lemma later_of_assoc (a b c : Obs.t) :
  later_of (later_of a b) c = later_of a (later_of b c).
Proof.
  unfold later_of.
  destruct (Obs.ts a >? Obs.ts b) eqn:Eab, (Obs.ts b >? Obs.ts c) eqn:Ebc;
    try rewrite Eab; try rewrite Ebc; try reflexivity.
  - destruct (Obs.ts a >? Obs.ts c) eqn:Eac; [reflexivity|].
    apply Z.gtb_lt in Eab, Ebc. rewrite Z.gtb_ltb in Eac.
    apply Z.ltb_ge in Eac. lia.
  - destruct (Obs.ts a >? Obs.ts c) eqn:Eac; [|reflexivity].
    rewrite Z.gtb_ltb in Eab, Ebc. apply Z.ltb_ge in Eab, Ebc.
    apply Z.gtb_lt in Eac. lia.
Qed.

(** [reduce] runs from the left; the same observation is found from the
    right. *)
Lemma reduce_latest_right (rest : list Obs.t) (a : Obs.t) :
  match latest_obs rest with
  | None => a
  | Some y => later_of a y
  end = reduce_latest a rest.
Proof.
  revert a. induction rest as [|b rest IH]; intros a.
  - reflexivity.
  - cbn [latest_obs reduce_latest fold_left].
    change (fold_left later_of rest (later_of a b))
      with (reduce_latest (later_of a b) rest).
    rewrite <- (IH (later_of a b)).
    change (fold_left later_of rest b) with (reduce_latest b rest).
    rewrite <- (IH b).
    destruct (latest_obs rest) as [y|]; [|reflexivity].
    symmetry. apply later_of_assoc.
Qed.

Lemma later_of_cases (a b : Obs.t) :
  (later_of a b = a /\ Obs.ts b < Obs.ts a) \/
  (later_of a b = b /\ Obs.ts a <= Obs.ts b).
Proof.
  unfold later_of. destruct (Obs.ts a >? Obs.ts b) eqn:E.
  - left. apply Z.gtb_lt in E. split; [reflexivity | exact E].
  - right. rewrite Z.gtb_ltb in E. apply Z.ltb_ge in E.
    split; [reflexivity | exact E].
Qed.

Lemma reduce_latest_cons (a b : Obs.t) (rest : list Obs.t) :
  reduce_latest a (b :: rest) = reduce_latest (later_of a b) rest.
Proof. reflexivity. Qed.

Lemma reduce_latest_In (rest : list Obs.t) (a : Obs.t) :
  In (reduce_latest a rest) (a :: rest).
Proof.
  revert a. induction rest as [|b rest IH]; intros a.
  - left. reflexivity.
  - rewrite reduce_latest_cons.
    destruct (IH (later_of a b)) as [H | H].
    + rewrite <- H.
      destruct (later_of_cases a b) as [[-> _] | [-> _]];
        [left | right; left]; reflexivity.
    + right. right. exact H.
Qed.

Lemma reduce_latest_ge_start (rest : list Obs.t) (a : Obs.t) :
  Obs.ts a <= Obs.ts (reduce_latest a rest).
Proof.
  revert a. induction rest as [|b rest IH]; intros a.
  - apply Z.le_refl.
  - rewrite reduce_latest_cons. specialize (IH (later_of a b)).
    destruct (later_of_cases a b) as [[E _] | [E Hle]]; rewrite E in *; lia.
Qed.

Lemma reduce_latest_max (rest : list Obs.t) (a q : Obs.t) :
  In q (a :: rest) -> Obs.ts q <= Obs.ts (reduce_latest a rest).
Proof.
  revert a. induction rest as [|b rest IH]; intros a Hq.
  - destruct Hq as [<- | []]. apply Z.le_refl.
  - rewrite reduce_latest_cons.
    assert (Hstart := reduce_latest_ge_start rest (later_of a b)).
    destruct Hq as [<- | [<- | Hq]].
    + destruct (later_of_cases a b) as [[E _] | [E Hle]]; rewrite E in *; lia.
    + destruct (later_of_cases a b) as [[E Hlt] | [E _]]; rewrite E in *; lia.
    + apply IH. right. exact Hq.
Qed.

Lemma latest_obs_max (prices : list Obs.t) (p : Obs.t) :
  latest_obs prices = Some p -> max_ts_obs prices p.
Proof.
  destruct prices as [|a rest]; [discriminate|].
  intros [= <-]. split.
  - apply reduce_latest_In.
  - intros q. apply reduce_latest_max.
Qed.

(** The last element of the sorted copy is the observation [reduce]
    finds. *)
Lemma last_sort_latest (l : list Obs.t) :
  last_opt (sort_by_ts l) = latest_obs l.
Proof.
  induction l as [|a rest IH].
  - reflexivity.
  - unfold sort_by_ts in *. cbn [sort_by fold_right].
    change (fold_right (insert_by Obs.ts) [] rest) with (sort_by Obs.ts rest).
    rewrite last_opt_insert_by by apply sort_by_sorted.
    rewrite IH. cbn [latest_obs]. rewrite <- reduce_latest_right.
    destruct (latest_obs rest) as [y|]; [|reflexivity].
    unfold later_of. destruct (Obs.ts a >? Obs.ts y); reflexivity.
Qed.

(** On a sorted array the first loop ends on the last element that is
    not after [ts]. *)
Lemma scan_candidate_sorted (ts : Z) (l : list Obs.t) (c : option Obs.t) :
  key_sorted Obs.ts l ->
  scan_candidate ts l c =
  match last_opt (filter (fun q => Obs.ts q <=? ts) l) with
  | Some x => Some x
  | None => c
  end.
Proof.
  revert c. induction l as [|p l IH]; intros c Hs.
  - reflexivity.
  - apply key_sorted_inv in Hs as [Hs Hp].
    cbn [scan_candidate filter]. destruct (Obs.ts p <=? ts) eqn:E.
    + rewrite (IH _ Hs). cbn [last_opt].
      destruct (last_opt (filter (fun q => Obs.ts q <=? ts) l)); reflexivity.
    + apply Z.leb_gt in E.
      assert (Hnil : filter (fun q => Obs.ts q <=? ts) l = []).
      { destruct (filter (fun q => Obs.ts q <=? ts) l) as [|z zs] eqn:F; [reflexivity|].
        assert (Hz : In z (filter (fun q => Obs.ts q <=? ts) l))
          by (rewrite F; left; reflexivity).
        apply filter_In in Hz as [Hz Hle]. apply Z.leb_le in Hle.
        specialize (Hp z Hz). lia. }
      rewrite Hnil. reflexivity.
Qed.

(** The candidate of [priceAt], read off the stored array: the
    observation [reduce] finds among those not after [ts]. *)
Lemma candidate_spec (ts : Z) (l : list Obs.t) :
  scan_candidate ts (sort_by_ts l) None =
  latest_obs (filter (fun q => Obs.ts q <=? ts) l).
Proof.
  rewrite scan_candidate_sorted by apply sort_by_sorted.
  unfold sort_by_ts. rewrite filter_sort_by.
  change (sort_by Obs.ts) with sort_by_ts.
  rewrite last_sort_latest.
  destruct (latest_obs (filter (fun q => Obs.ts q <=? ts) l)); reflexivity.
Qed.

(** The second loop keeps an element closest to [ts]. *)
Lemma scan_closest_spec (ts : Z) (l : list Obs.t) (c : Obs.t) :
  let r := scan_closest ts l c (Z.abs (Obs.ts c - ts)) in
  (r = c \/ In r l) /\
  Z.abs (Obs.ts r - ts) <= Z.abs (Obs.ts c - ts) /\
  forall q, In q l -> Z.abs (Obs.ts r - ts) <= Z.abs (Obs.ts q - ts).
Proof.
  revert c. induction l as [|p l IH]; intros c; cbn zeta.
  - cbn [scan_closest]. repeat split.
    + left. reflexivity.
    + apply Z.le_refl.
    + intros q [].
  - cbn [scan_closest].
    destruct (Z.abs (Obs.ts p - ts) <? Z.abs (Obs.ts c - ts)) eqn:E.
    + apply Z.ltb_lt in E. destruct (IH p) as (Hin & Hle & Hall).
      repeat split.
      * right. destruct Hin as [-> | Hin]; [left; reflexivity | right; exact Hin].
      * lia.
      * intros q [<- | Hq]; [exact Hle | apply Hall, Hq].
    + apply Z.ltb_ge in E. destruct (IH c) as (Hin & Hle & Hall).
      repeat split.
      * destruct Hin as [-> | Hin]; [left; reflexivity | right; right; exact Hin].
      * exact Hle.
      * intros q [<- | Hq]; [lia | apply Hall, Hq].
Qed.

Lemma filter_all (A : Type) (f : A -> bool) (l : list A) :
  (forall x, In x l -> f x = true) -> filter f l = l.
Proof.
  induction l as [|x l IH]; intros H.
  - reflexivity.
  - cbn [filter]. rewrite (H x) by (left; reflexivity).
    f_equal. apply IH. intros y Hy. apply H. right. exact Hy.
Qed.

Lemma filter_none (A : Type) (f : A -> bool) (l : list A) :
  (forall x, In x l -> f x = false) -> filter f l = [].
Proof.
  induction l as [|x l IH]; intros H.
  - reflexivity.
  - cbn [filter]. rewrite (H x) by (left; reflexivity).
    apply IH. intros y Hy. apply H. right. exact Hy.
Qed.

Lemma sort_by_ts_nonempty (l : list Obs.t) : l <> [] -> sort_by_ts l <> [].
Proof.
  intros Hl Hs. apply Hl. apply Permutation_nil.
  rewrite <- Hs. apply sort_by_perm.
Qed.

Lemma price_scan_some (sorted : list Obs.t) (ts : Z) :
  sorted <> [] -> price_scan sorted ts <> None.
Proof.
  intros Hs. unfold price_scan.
  destruct (scan_candidate ts sorted None); [discriminate|].
  destruct sorted; [contradiction | discriminate].
Qed.

(** [priceAt] on an instrument that was found with a non-empty array. *)
Lemma priceAt_found (etfs : list Etf.t) (symbol : string) (e : Etf.t) (ts : Z) :
  find_etf etfs symbol = Some e -> Etf.prices e <> [] ->
  priceAt etfs symbol ts = price_scan (sort_by_ts (Etf.prices e)) ts.
Proof.
  intros Hf Hne. unfold priceAt. rewrite Hf.
  destruct (Etf.prices e); [contradiction | reflexivity].
Qed.

(** As-of case: an observation at or before [ts] exists. *)
Lemma price_scan_as_of (prices : list Obs.t) (ts : Z) :
  (exists q, In q prices /\ Obs.ts q <= ts) ->
  exists p, latest_as_of prices ts p /\
            price_scan (sort_by_ts prices) ts = Some (Obs.price p).
Proof.
  intros (q & Hq & Hle). unfold price_scan. rewrite candidate_spec.
  destruct (latest_obs (filter (fun q => Obs.ts q <=? ts) prices)) as [p|] eqn:L.
  - exists p. split; [|reflexivity].
    apply latest_obs_max in L as [Hin Hmax].
    apply filter_In in Hin as [Hin Hp]. apply Z.leb_le in Hp.
    repeat split; try assumption.
    intros q' Hq' Hle'. apply Hmax. apply filter_In. split; [exact Hq'|].
    apply Z.leb_le. exact Hle'.
  - exfalso.
    assert (Hf : In q (filter (fun q => Obs.ts q <=? ts) prices)).
    { apply filter_In. split; [exact Hq | apply Z.leb_le, Hle]. }
    destruct (filter (fun q => Obs.ts q <=? ts) prices); [destruct Hf | discriminate].
Qed.

(** Fallback case: every observation is after [ts]. *)
Lemma price_scan_fallback (prices : list Obs.t) (ts : Z) :
  prices <> [] -> (forall q, In q prices -> ts < Obs.ts q) ->
  exists p, nearest_to prices ts p /\
            price_scan (sort_by_ts prices) ts = Some (Obs.price p).
Proof.
  intros Hne Hall. unfold price_scan. rewrite candidate_spec.
  rewrite filter_none.
  2:{ intros q Hq. apply Z.leb_gt. apply Hall, Hq. }
  cbn [latest_obs].
  assert (Hsorted := sort_by_ts_nonempty prices Hne).
  destruct (sort_by_ts prices) as [|s0 rest] eqn:S; [contradiction|].
  pose proof (scan_closest_spec ts (s0 :: rest) s0) as (Hin & _ & Hmin).
  set (r := scan_closest ts (s0 :: rest) s0 (Z.abs (Obs.ts s0 - ts))) in *.
  assert (Hr : In r prices).
  { apply (sort_by_In Obs.ts). fold (sort_by_ts prices). rewrite S.
    destruct Hin as [-> | Hin]; [left; reflexivity | exact Hin]. }
  exists r. split; [|reflexivity]. repeat split.
  - exact Hr.
  - intros q Hq. apply Hmin. rewrite <- S. apply (sort_by_In Obs.ts). exact Hq.
  - intros q Hq Heq. pose proof (Hall q Hq). pose proof (Hall r Hr). lia.
Qed.

(** C2.  For an instrument with at least one observation, [priceAt]
    returns the price of a latest observation at or before the query
    time when there is one, and otherwise the price of an observation of
    minimal absolute distance to the query time, the earliest of those
    equally distant; and [priceAt] is null exactly when the symbol is not
    found or the instrument has no observation. *)
Theorem priceAt_as_of_or_nearest (etfs : list Etf.t) (symbol : string) (t : Z) :
  (forall e, find_etf etfs symbol = Some e -> Etf.prices e <> [] ->
     ((exists q, In q (Etf.prices e) /\ Obs.ts q <= t) ->
      exists p, latest_as_of (Etf.prices e) t p /\
                priceAt etfs symbol t = Some (Obs.price p)) /\
     ((forall q, In q (Etf.prices e) -> t < Obs.ts q) ->
      exists p, nearest_to (Etf.prices e) t p /\
                priceAt etfs symbol t = Some (Obs.price p))) /\
  (priceAt etfs symbol t = None <->
   find_etf etfs symbol = None \/
   exists e, find_etf etfs symbol = Some e /\ Etf.prices e = []).
Proof.
  split.
  - intros e Hf Hne. rewrite (priceAt_found _ _ _ _ Hf Hne). split.
    + apply price_scan_as_of.
    + apply price_scan_fallback, Hne.
  - unfold priceAt. destruct (find_etf etfs symbol) as [e|] eqn:Hf.
    + destruct (Etf.prices e) as [|a rest] eqn:Hp.
      * split; [|reflexivity]. intros _. right. exists e. split; [reflexivity | exact Hp].
      * split.
        -- intros H. exfalso. revert H. apply price_scan_some.
           apply sort_by_ts_nonempty. discriminate.
        -- intros [H | (e' & [= <-] & H)]; [discriminate|].
           rewrite Hp in H. discriminate.
    + split; [intros _; left; reflexivity | reflexivity].
Qed.

(** C3.  [latestPrice] is null exactly when the symbol is not found or
    the instrument has no observation; otherwise it is the price of an
    observation of maximum timestamp, and [priceAt] agrees with it at
    every query time from that timestamp on. *)
Theorem latestPrice_max_and_priceAt_after (etfs : list Etf.t) (symbol : string) :
  (latestPrice etfs symbol = None <->
   find_etf etfs symbol = None \/
   exists e, find_etf etfs symbol = Some e /\ Etf.prices e = []) /\
  (forall e, find_etf etfs symbol = Some e -> Etf.prices e <> [] ->
   exists p, max_ts_obs (Etf.prices e) p /\
             latestPrice etfs symbol = Some (Obs.price p) /\
             forall t, Obs.ts p <= t ->
                       priceAt etfs symbol t = latestPrice etfs symbol).
Proof.
  split.
  - unfold latestPrice. destruct (find_etf etfs symbol) as [e|] eqn:Hf.
    + destruct (Etf.prices e) as [|a rest] eqn:Hp.
      * split; [|reflexivity]. intros _. right. exists e. split; [reflexivity | exact Hp].
      * split; [discriminate|].
        intros [H | (e' & [= <-] & H)]; [discriminate|].
        rewrite Hp in H. discriminate.
    + split; [intros _; left; reflexivity | reflexivity].
  - intros e Hf Hne.
    destruct (latest_obs (Etf.prices e)) as [p|] eqn:L.
    2:{ destruct (Etf.prices e); [contradiction | discriminate]. }
    pose proof (latest_obs_max _ _ L) as Hmax.
    assert (HL : latestPrice etfs symbol = Some (Obs.price p)).
    { unfold latestPrice. rewrite Hf. destruct (Etf.prices e); [contradiction|].
      cbn [latest_obs] in L. injection L as <-. reflexivity. }
    exists p. split; [exact Hmax|]. split; [exact HL|].
    intros t Ht. rewrite HL, (priceAt_found _ _ _ _ Hf Hne).
    unfold price_scan. rewrite candidate_spec, filter_all.
    + rewrite L. reflexivity.
    + intros q Hq. apply Z.leb_le. destruct Hmax as [_ Hmax].
      specialize (Hmax q Hq). lia.
Qed.

(** [priceAt] walks the instruments until the symbol matches. *)
Lemma priceAt_cons (x : Etf.t) (etfs : list Etf.t) (symbol : string) (t : Z) :
  priceAt (x :: etfs) symbol t =
  if String.eqb (Etf.symbol x) symbol
  then match Etf.prices x with
       | [] => None
       | _ :: _ => price_scan (sort_by_ts (Etf.prices x)) t
       end
  else priceAt etfs symbol t.
Proof.
  unfold priceAt, find_etf. cbn [find].
  destruct (String.eqb (Etf.symbol x) symbol); reflexivity.
Qed.

(** C10.  When the observations of an instrument have pairwise distinct
    timestamps, storing them in another order changes no result of
    [priceAt]. *)
Theorem priceAt_storage_order_irrelevant
  (before after : list Etf.t) (e e' : Etf.t) (symbol : string) (t : Z) :
  NoDup (map Obs.ts (Etf.prices e)) ->
  Permutation (Etf.prices e) (Etf.prices e') ->
  Etf.symbol e' = Etf.symbol e ->
  priceAt (before ++ e' :: after) symbol t =
  priceAt (before ++ e :: after) symbol t.
Proof.
  intros Hnodup Hperm Hsym.
  induction before as [|x before IH]; cbn [app]; rewrite !priceAt_cons.
  - rewrite Hsym. destruct (String.eqb (Etf.symbol e) symbol); [|reflexivity].
    unfold sort_by_ts.
    rewrite (sort_by_perm_invariant Obs.ts _ _ Hnodup Hperm).
    destruct (Etf.prices e) as [|a l], (Etf.prices e') as [|a' l']; try reflexivity.
    apply Permutation_nil in Hperm. discriminate.
  - rewrite IH. reflexivity.
Qed.

(** ** Totals *)

(** A loop that adds [qty * unit] for every purchase that has a unit price
    adds the amounts of the purchases to its accumulator, one after the
    other. *)
Lemma priced_loop (unit : Purchase.t -> option number) (purchases : list Purchase.t)
  (acc : number) :
  fold_left (fun acc p => add_priced acc (Purchase.qty p) (unit p)) purchases acc
  = fold_left fadd (amounts unit purchases) acc.
Proof.
  revert acc. induction purchases as [|p purchases IH]; intros acc; [reflexivity|].
  cbn [fold_left]. rewrite IH. unfold amounts. cbn [flat_map].
  rewrite fold_left_app. destruct (unit p) as [u|]; reflexivity.
Qed.

(** The two accumulators of the loop of [computeTotals] are those of two
    separate loops. *)
Lemma totals_loop_split (etfs : list Etf.t) (purchases : list Purchase.t)
  (acc : number * number) :
  fold_left (totals_step etfs) purchases acc
  = (fold_left (fun acc p => add_priced acc (Purchase.qty p)
                               (priceAt etfs (Purchase.symbol p) (Purchase.ts p)))
               purchases (fst acc),
     fold_left (fun acc p => add_priced acc (Purchase.qty p)
                               (latestPrice etfs (Purchase.symbol p)))
               purchases (snd acc)).
Proof.
  revert acc. induction purchases as [|p purchases IH]; intros [i c]; [reflexivity|].
  cbn [fold_left]. rewrite IH. reflexivity.
Qed.

(** The loop of [computeTotals] ends with the two sums of the
    specification. *)
Lemma totals_loop_sums (etfs : list Etf.t) (purchases : list Purchase.t) :
  fold_left (totals_step etfs) purchases (zero, zero)
  = (costBasis etfs purchases, currentValue etfs purchases).
Proof.
  rewrite totals_loop_split, !priced_loop. reflexivity.
Qed.

(** C4.  [computeTotals] returns the cost basis as [invested], the
    current value as [current], their difference as [pl], and as [plPct]
    the ratio [pl / invested * 100] when [invested > 0] and [0]
    otherwise, each sum adding its terms in the order of the purchases and
    each operation rounding as the program's numbers do; with no purchase
    all four are [0]; and in the scenario of instrument AAA observed at
    (100, 10) and (200, 20) with 5 units bought at 150 the totals are 50,
    100, 50 and 100. *)
Theorem computeTotals_spec :
  (forall etfs purchases,
     let t := computeTotals etfs purchases in
     invested t = costBasis etfs purchases /\
     current t = currentValue etfs purchases /\
     pl t = fsub (current t) (invested t) /\
     (fgt (invested t) zero = true ->
      plPct t = fmul (fdiv (pl t) (invested t)) (num 100)) /\
     (fgt (invested t) zero = false -> plPct t = zero)) /\
  (forall etfs, computeTotals etfs [] = mkTotals zero zero zero zero) /\
  (forall name,
     computeTotals
       [Etf.mk "AAA" name [Obs.mk 100 (num 10); Obs.mk 200 (num 20)]]
       [Purchase.mk 150 "AAA" (num 5)]
     = mkTotals (num 50) (num 100) (num 50) (num 100)).
Proof.
  split; [|split].
  - intros etfs purchases t. subst t. unfold computeTotals.
    rewrite totals_loop_sums. cbn [fst snd invested current pl plPct].
    split; [reflexivity|]. split; [reflexivity|]. split; [reflexivity|].
    split; intros ->; reflexivity.
  - intros etfs. reflexivity.
  - intros name. vm_compute. reflexivity.
Qed.

(** A symbol without any observation has no price. *)
Lemma unpriced_symbol (etfs : list Etf.t) (symbol : string) :
  (find_etf etfs symbol = None \/
   exists e, find_etf etfs symbol = Some e /\ Etf.prices e = []) ->
  (forall t, priceAt etfs symbol t = None) /\ latestPrice etfs symbol = None.
Proof.
  intros H. unfold priceAt, latestPrice.
  destruct H as [-> | (e & -> & ->)]; split; reflexivity.
Qed.

(** C8.  A purchase whose symbol is not found, or is found with no
    observation, has a null price at every time and a null latest price,
    and the totals are those of the purchase list without it. *)
Theorem unpriced_purchase_contributes_nothing
  (etfs : list Etf.t) (before after : list Purchase.t) (p : Purchase.t) :
  (find_etf etfs (Purchase.symbol p) = None \/
   exists e, find_etf etfs (Purchase.symbol p) = Some e /\ Etf.prices e = []) ->
  (forall t, priceAt etfs (Purchase.symbol p) t = None) /\
  latestPrice etfs (Purchase.symbol p) = None /\
  computeTotals etfs (before ++ p :: after) = computeTotals etfs (before ++ after).
Proof.
  intros H. destruct (unpriced_symbol _ _ H) as [Hat Hlatest].
  split; [exact Hat|]. split; [exact Hlatest|].
  unfold computeTotals. rewrite !fold_left_app. cbn [fold_left].
  assert (Hstep : forall acc, totals_step etfs acc p = acc).
  { intros [i c]. unfold totals_step. rewrite Hat, Hlatest. reflexivity. }
  rewrite Hstep. reflexivity.
Qed.

(** ** Goal projection *)

(** [monthly <= 0] fails for a number that is not [NaN] exactly when the
    number is positive. *)
Lemma fle_zero_false (x : number) :
  fle x zero = false -> x <> NaN -> fgt x zero = true.
Proof.
  unfold NaN. destruct x as [s | s | | s m e]; try destruct s; cbn; congruence.
Qed.

(** A positive number is truthy and not [<= 0]. *)
Lemma positive_kept (x : number) :
  fgt x zero = true -> num_or_zero x = x /\ fle x zero = false.
Proof.
  destruct x as [s | s | | s m e]; try destruct s; cbn; try discriminate;
    intros _; split; reflexivity.
Qed.

(** [Math.max(0, t)] is [0] for every [t <= 0], also after [+t || 0]. *)
Lemma Math_max0_nonpositive (t : number) :
  fle t zero = true -> Math_max0 (num_or_zero t) = zero.
Proof.
  destruct t as [s | s | | s m e]; try destruct s; cbn; try discriminate;
    intros _; reflexivity.
Qed.

(** [+t || 0] changes [Math.max(0, t)] for no number but [NaN]. *)
Lemma Math_max0_num_or_zero (t : number) :
  t <> NaN -> Math_max0 (num_or_zero t) = Math_max0 t.
Proof.
  unfold NaN. destruct t as [s | s | | s m e]; try destruct s; cbn; congruence.
Qed.

(** [0 / m] is [0] for every positive [m], and its ceiling is [0]. *)
Lemma ceil_zero_div (m : number) :
  fgt m zero = true -> Math_ceil (fdiv zero m) = zero.
Proof.
  destruct m as [s | s | | s m e]; try destruct s; cbn; try discriminate;
    intros _; reflexivity.
Qed.

(** C6.  [monthsToReach] returns [Infinity] when [monthly <= 0] and
    otherwise [ceil(max(0, target) / monthly)], the quotient rounded as
    the program's numbers are; so for a positive [monthly] a negative or
    zero target gives [0].  [NaN], which compares with nothing, is no
    amount of money: the function takes it for [0], as a contribution and
    as a target. *)
Theorem monthsToReach_spec (target monthly : number) :
  (fle monthly zero = true -> monthsToReach target monthly = infinity) /\
  (fle monthly zero = false -> monthly <> NaN -> target <> NaN ->
   monthsToReach target monthly = Math_ceil (fdiv (Math_max0 target) monthly)) /\
  (fle monthly zero = false -> monthly <> NaN -> fle target zero = true ->
   monthsToReach target monthly = zero) /\
  monthsToReach target NaN = infinity /\
  monthsToReach NaN monthly = monthsToReach zero monthly.
Proof.
  split; [|split; [|split; [|split; reflexivity]]].
  - intros Hm. unfold monthsToReach.
    destruct monthly as [s | s | | s m e]; try destruct s; cbn in Hm |- *;
      try discriminate; reflexivity.
  - intros Hm Hnan Ht. apply fle_zero_false in Hm; [|exact Hnan].
    destruct (positive_kept monthly Hm) as [Hk Hle].
    unfold monthsToReach. rewrite Hk, Hle, (Math_max0_num_or_zero target Ht).
    reflexivity.
  - intros Hm Hnan Ht. apply fle_zero_false in Hm; [|exact Hnan].
    destruct (positive_kept monthly Hm) as [Hk Hle].
    unfold monthsToReach. rewrite Hk, Hle, (Math_max0_nonpositive target Ht).
    apply ceil_zero_div. exact Hm.
Qed.

(** ** Timeline *)

Lemma set_add_In (s : list Z) (t x : Z) :
  In x (set_add s t) <-> In x s \/ x = t.
Proof.
  unfold set_add. destruct (existsb (Z.eqb t) s) eqn:E.
  - split; [intros H; left; exact H|].
    intros [H | ->]; [exact H|].
    apply existsb_exists in E as (y & Hy & Heq).
    apply Z.eqb_eq in Heq. subst y. exact Hy.
  - rewrite in_app_iff. cbn [In]. split.
    + intros [H | [<- | []]]; [left; exact H | right; reflexivity].
    + intros [H | ->]; [left; exact H | right; left; reflexivity].
Qed.

Lemma set_add_NoDup (s : list Z) (t : Z) : NoDup s -> NoDup (set_add s t).
Proof.
  intros Hs. unfold set_add. destruct (existsb (Z.eqb t) s) eqn:E; [exact Hs|].
  apply NoDup_app; [exact Hs | constructor; [intros [] | constructor] |].
  intros x Hx [Heq | []]. subst x.
  assert (Ht : existsb (Z.eqb t) s = true).
  { apply existsb_exists. exists t. split; [exact Hx | apply Z.eqb_refl]. }
  rewrite Ht in E. discriminate.
Qed.

Section AddAll.
Context {B : Type} (f : B -> Z).

(** [l.forEach(p => times.add(f(p)))]. *)
Lemma add_all_In (l : list B) (s : list Z) (x : Z) :
  In x (fold_left (fun times p => set_add times (f p)) l s) <->
  In x s \/ exists p, In p l /\ f p = x.
Proof.
  revert s. induction l as [|p l IH]; intros s; cbn [fold_left].
  - split; [intros H; left; exact H | intros [H | (p & [] & _)]; exact H].
  - rewrite IH, set_add_In. split.
    + intros [[H | ->] | (q & Hq & Hx)].
      * left. exact H.
      * right. exists p. split; [left|]; reflexivity.
      * right. exists q. split; [right; exact Hq | exact Hx].
    + intros [H | (q & [<- | Hq] & Hx)].
      * left. left. exact H.
      * left. right. symmetry. exact Hx.
      * right. exists q. split; assumption.
Qed.

Lemma add_all_NoDup (l : list B) (s : list Z) :
  NoDup s -> NoDup (fold_left (fun times p => set_add times (f p)) l s).
Proof.
  revert s. induction l as [|p l IH]; intros s Hs; cbn [fold_left].
  - exact Hs.
  - apply IH, set_add_NoDup, Hs.
Qed.
End AddAll.

Lemma add_prices_In (etfs : list Etf.t) (s : list Z) (x : Z) :
  In x (fold_left (fun times e =>
                     fold_left (fun times p => set_add times (Obs.ts p))
                               (Etf.prices e) times) etfs s) <->
  In x s \/ exists e p, In e etfs /\ In p (Etf.prices e) /\ Obs.ts p = x.
Proof.
  revert s. induction etfs as [|e etfs IH]; intros s; cbn [fold_left].
  - split; [intros H; left; exact H | intros [H | (e & p & [] & _)]; exact H].
  - rewrite IH, add_all_In. split.
    + intros [[H | (p & Hp & Hx)] | (e' & p & He & Hp & Hx)].
      * left. exact H.
      * right. exists e, p. repeat split; [left; reflexivity | exact Hp | exact Hx].
      * right. exists e', p. repeat split; [right; exact He | exact Hp | exact Hx].
    + intros [H | (e' & p & [<- | He] & Hp & Hx)].
      * left. left. exact H.
      * left. right. exists p. split; assumption.
      * right. exists e', p. repeat split; assumption.
Qed.

Lemma add_prices_NoDup (etfs : list Etf.t) (s : list Z) :
  NoDup s ->
  NoDup (fold_left (fun times e =>
                      fold_left (fun times p => set_add times (Obs.ts p))
                                (Etf.prices e) times) etfs s).
Proof.
  revert s. induction etfs as [|e etfs IH]; intros s Hs; cbn [fold_left].
  - exact Hs.
  - apply IH, add_all_NoDup, Hs.
Qed.

Lemma collect_times_In (etfs : list Etf.t) (purchases : list Purchase.t) (x : Z) :
  In x (collect_times etfs purchases) <-> event_time etfs purchases x.
Proof.
  unfold collect_times, event_time. rewrite add_all_In, add_prices_In.
  cbn [In]. tauto.
Qed.

Lemma collect_times_NoDup (etfs : list Etf.t) (purchases : list Purchase.t) :
  NoDup (collect_times etfs purchases).
Proof.
  unfold collect_times. apply add_all_NoDup, add_prices_NoDup. constructor.
Qed.

(** With a date range the samples are the event timestamps inside it. *)
Lemma points_in_range (etfs : list Etf.t) (purchases : list Purchase.t)
  (from to : option Z) (t : Z) :
  In t (points etfs purchases from to) <->
  event_time etfs purchases t /\
  match from with Some f => f <= t | None => True end /\
  match to with Some u => t <= u | None => True end.
Proof.
  unfold points, sort_num.
  assert (Hbase : In t (sort_by (fun t : Z => t) (collect_times etfs purchases))
                  <-> event_time etfs purchases t).
  { rewrite (sort_by_In (fun t : Z => t)). apply collect_times_In. }
  destruct from as [f|], to as [u|]; rewrite ?filter_In, ?Hbase, ?Z.leb_le, ?Z.geb_le;
    tauto.
Qed.

(** C5.  Without a date range, the sampled timeline is strictly
    ascending, so free of duplicates, and holds exactly the timestamps of
    the price observations of all instruments and of the purchases. *)
Theorem points_strictly_ascending_union
  (etfs : list Etf.t) (purchases : list Purchase.t) :
  StronglySorted Z.lt (points etfs purchases None None) /\
  NoDup (points etfs purchases None None) /\
  forall t, In t (points etfs purchases None None) <-> event_time etfs purchases t.
Proof.
  unfold points, sort_num.
  assert (Hperm := sort_by_perm (fun t : Z => t) (collect_times etfs purchases)).
  assert (Hnodup : NoDup (sort_by (fun t : Z => t) (collect_times etfs purchases))).
  { apply Permutation_NoDup with (collect_times etfs purchases).
    - apply Permutation_sym, Hperm.
    - apply collect_times_NoDup. }
  split; [|split].
  - apply (key_sorted_strict (fun t : Z => t)).
    + apply sort_by_sorted.
    + rewrite map_id. exact Hnodup.
  - exact Hnodup.
  - intros t. rewrite (sort_by_In (fun t : Z => t)). apply collect_times_In.
Qed.

(** ** Invested series *)

(** One sample of the invested series adds the amounts of all the
    purchases up to that sample to the running total, one after the
    other. *)
Lemma invested_pass_adds (etfs : list Etf.t) (purchases : list Purchase.t)
  (investedTotal : number) (t : Z) :
  invested_pass etfs purchases investedTotal t
  = fold_left fadd
      (amounts (fun p => priceAt etfs (Purchase.symbol p) (Purchase.ts p))
               (filter (fun p => Purchase.ts p <=? t) purchases))
      investedTotal.
Proof.
  unfold invested_pass. apply priced_loop.
Qed.

(** The first point of the series is the cost basis at the first
    sample. *)
Lemma seriesInvested_first (etfs : list Etf.t) (purchases : list Purchase.t)
  (t : Z) (rest : list Z) :
  exists tail,
    seriesInvested etfs purchases (t :: rest)
    = (t, investedAt etfs purchases t) :: tail.
Proof.
  unfold seriesInvested. cbn [seriesInvested_from].
  eexists. rewrite invested_pass_adds. reflexivity.
Qed.

(** What the series holds in general: the running totals of the amounts
    of the purchases up to the first sample, then of those up to the
    second sample, and so on; a purchase is counted once per sample at or
    after it. *)
Lemma seriesInvested_from_running_sums
  (etfs : list Etf.t) (purchases : list Purchase.t) (pts : list Z) (acc : number) :
  map snd (seriesInvested_from etfs purchases acc pts)
  = running_sums acc
      (map (fun t => amounts (fun p => priceAt etfs (Purchase.symbol p) (Purchase.ts p))
                             (filter (fun p => Purchase.ts p <=? t) purchases))
           pts).
Proof.
  revert acc. induction pts as [|t rest IH]; intros acc; [reflexivity|].
  cbn [seriesInvested_from map snd running_sums].
  rewrite IH, invested_pass_adds. reflexivity.
Qed.

Lemma seriesInvested_running_sums
  (etfs : list Etf.t) (purchases : list Purchase.t) (pts : list Z) :
  map fst (seriesInvested etfs purchases pts) = pts /\
  map snd (seriesInvested etfs purchases pts)
  = running_sums zero
      (map (fun t => amounts (fun p => priceAt etfs (Purchase.symbol p) (Purchase.ts p))
                             (filter (fun p => Purchase.ts p <=? t) purchases))
           pts).
Proof.
  split.
  - unfold seriesInvested. generalize zero as acc.
    induction pts as [|t rest IH]; intros acc; cbn [seriesInvested_from map fst].
    + reflexivity.
    + rewrite IH. reflexivity.
  - apply seriesInvested_from_running_sums.
Qed.

(** C1, on the code.  For instrument AAA observed at (100, 10) and
    (200, 20) and 5 units bought at 150, the samples are 100, 150, 200;
    the invested series is 0, 50, 100, while the cost basis at 200 is
    50: the purchase is added again at every sample after it. *)
Theorem seriesInvested_recounts_purchases :
  let etfs := [example_AAA] in
  let purchases := [example_purchase] in
  points etfs purchases None None = [100; 150; 200] /\
  seriesInvested etfs purchases (points etfs purchases None None)
  = [(100, zero); (150, num 50); (200, num 100)] /\
  investedAt etfs purchases 200 = num 50.
Proof.
  cbn zeta. repeat split; vm_compute; reflexivity.
Qed.

(** ** Import *)
Module AppFacts.
Import App.

Section ImportAllFacts.
Variable JSON_parse : string -> option json.
Variable JSON_stringify : json -> string.
Variable render : State -> option Exn.
Variable sort_by_symbol : list json -> list json * option Exn.

(** A document that fails the validation makes the [try] block throw
    before anything is written. *)
Lemma import_body_rejects (result : string) (s : State) :
  ~ App.valid_document JSON_parse result ->
  exists e,
    App.import_body JSON_parse JSON_stringify render sort_by_symbol result s = (inl e, s).
Proof.
  intros Hinv. unfold App.import_body.
  destruct (JSON_parse result) as [data|] eqn:P.
  2:{ exists SyntaxError. reflexivity. }
  destruct data as [|b|n|str|items|fields];
    try (cbn; destruct (_ : bool); eexists; reflexivity);
    try (cbn; eexists; reflexivity).
  cbn [truthy typeof_object negb orb get_prop].
  unfold bind at 1. unfold ret at 1. unfold bind at 1. unfold ret at 1.
  destruct (lookup "etfs" fields) as [[| | | |e|]|] eqn:Le;
    try (cbn; eexists; reflexivity).
  destruct (lookup "purchases" fields) as [[| | | |p|]|] eqn:Lp;
    try (cbn; eexists; reflexivity).
  exfalso. apply Hinv. exists fields, e, p. repeat split; assumption.
Qed.

Lemma valid_document_dec (result : string) :
  App.valid_document JSON_parse result \/ ~ App.valid_document JSON_parse result.
Proof.
  unfold App.valid_document.
  destruct (JSON_parse result) as [[|b|n|str|items|fields]|];
    try (right; intros (f & e & p & [=] & _); fail).
  destruct (lookup "etfs" fields) as [[| | | |e|]|] eqn:Le;
    try (right; intros (f & e' & p & [= <-] & He & _); congruence).
  destruct (lookup "purchases" fields) as [[| | | |p|]|] eqn:Lp;
    try (right; intros (f & e' & p' & [= <-] & _ & Hp); congruence).
  left. exists fields, e, p. repeat split; assumption.
Qed.

(** What a rejected import leaves behind: the error on the console and
    the failure alert, nothing else. *)
Lemma importAll_rejects (result : string) (s : State) :
  ~ App.valid_document JSON_parse result ->
  exists e,
    App.importAll JSON_parse JSON_stringify render sort_by_symbol result s =
    (inr tt, mkState (etfs s) (purchases s) (goals s) (ui s) (localStorage s)
                     (alerts s ++ [ImportFailed]) (console s ++ [e])).
Proof.
  intros Hinv. destruct (import_body_rejects result s Hinv) as [e He].
  exists e. unfold App.importAll, try_catch. rewrite He. reflexivity.
Qed.

(** C7.  A document that does not parse, or whose [etfs] and [purchases]
    fields are not both arrays, gets the failure alert and leaves the four
    state variables and their persisted copies as they were; so an import
    that reports success, or that changes any of them, was given a valid
    document. *)
Theorem importAll_atomic (result : string) (s : State) :
  let s' := snd (App.importAll JSON_parse JSON_stringify render sort_by_symbol result s) in
  (~ App.valid_document JSON_parse result ->
   etfs s' = etfs s /\ purchases s' = purchases s /\ goals s' = goals s /\
   ui s' = ui s /\ localStorage s' = localStorage s /\
   alerts s' = alerts s ++ [ImportFailed]) /\
  (alerts s' = alerts s ++ [ImportSucceeded] ->
   App.valid_document JSON_parse result) /\
  ((etfs s', purchases s', goals s', ui s', localStorage s')
   <> (etfs s, purchases s, goals s, ui s, localStorage s) ->
   App.valid_document JSON_parse result).
Proof.
  cbn zeta. split; [|split].
  - intros Hinv. destruct (importAll_rejects result s Hinv) as [e ->].
    cbn [snd etfs purchases goals ui localStorage alerts]. repeat split.
  - intros Hok. destruct (valid_document_dec result) as [Hv | Hinv]; [exact Hv|].
    destruct (importAll_rejects result s Hinv) as [e He]. rewrite He in Hok.
    cbn [snd alerts] in Hok. apply app_inj_tail in Hok as [_ Hok]. discriminate.
  - intros Hchg. destruct (valid_document_dec result) as [Hv | Hinv]; [exact Hv|].
    destruct (importAll_rejects result s Hinv) as [e He]. rewrite He in Hchg.
    exfalso. apply Hchg. reflexivity.
Qed.

End ImportAllFacts.
End AppFacts.

(** ** The stored arrays are left alone *)
Module HeapFacts.
Import Heap.

Lemma preserved_refl (w : World) : preserved w w.
Proof.
  repeat split. exists []. symmetry. apply app_nil_r.
Qed.

Lemma preserved_trans (w1 w2 w3 : World) :
  preserved w1 w2 -> preserved w2 w3 -> preserved w1 w3.
Proof.
  intros (He1 & Hp1 & f1 & Ha1) (He2 & Hp2 & f2 & Ha2). repeat split.
  - rewrite He2. exact He1.
  - rewrite Hp2. exact Hp1.
  - exists (f1 ++ f2). rewrite Ha2, Ha1. symmetry. apply app_assoc.
Qed.

(** Every array of the old world reads the same in the new one. *)
Lemma preserved_read (w w' : World) (r : nat) :
  preserved w w' -> (r < List.length (arrays w))%nat -> read w' r = read w r.
Proof.
  intros (_ & _ & fresh & Ha) Hr. unfold read. rewrite Ha.
  apply app_nth1. exact Hr.
Qed.

Lemma set_nth_end (A : Type) (l : list A) (x y : A) :
  set_nth (List.length l) x (l ++ [y]) = l ++ [x].
Proof.
  induction l as [|z l IH]; cbn [List.length app set_nth].
  - reflexivity.
  - rewrite IH. reflexivity.
Qed.

(** [priceAt] on an instrument with observations: the result comes from
    the stored elements, and the world gains one array, the sorted
    copy. *)
Lemma priceAt_sorts_copy (w : World) (symbol : string) (ts : Z) (e : EtfObj) (r : nat) :
  find_etf w symbol = Some e -> prices e = Some r -> read w r <> [] ->
  priceAt symbol ts w =
  (price_scan (sort_by_ts (read w r)) ts,
   mkWorld (arrays w ++ [sort_by_ts (read w r)]) (etfs w) (purchases w)).
Proof.
  intros Hf Hp Hne. unfold priceAt. rewrite Hf, Hp.
  destruct (read w r) as [|a rest] eqn:R; [contradiction|].
  unfold spread, sort_in_place. rewrite R.
  cbn [arrays etfs purchases].
  assert (Hcopy : read (mkWorld (arrays w ++ [a :: rest]) (etfs w) (purchases w))
                       (List.length (arrays w)) = a :: rest).
  { unfold read. cbn [arrays]. rewrite app_nth2 by apply Nat.le_refl.
    rewrite Nat.sub_diag. reflexivity. }
  rewrite Hcopy, set_nth_end.
  f_equal. unfold read. cbn [arrays].
  rewrite app_nth2 by apply Nat.le_refl. rewrite Nat.sub_diag. reflexivity.
Qed.

Lemma priceAt_preserved (symbol : string) (ts : Z) (w : World) :
  preserved w (snd (priceAt symbol ts w)).
Proof.
  destruct (find_etf w symbol) as [e|] eqn:Hf.
  2:{ unfold priceAt. rewrite Hf. apply preserved_refl. }
  destruct (prices e) as [r|] eqn:Hp.
  2:{ unfold priceAt. rewrite Hf, Hp. apply preserved_refl. }
  destruct (read w r) as [|a rest] eqn:R.
  { unfold priceAt. rewrite Hf, Hp, R. apply preserved_refl. }
  rewrite (priceAt_sorts_copy w symbol ts e r Hf Hp) by (rewrite R; discriminate).
  cbn [snd]. repeat split. eexists. reflexivity.
Qed.

Lemma latestPrice_same_world (symbol : string) (w : World) :
  snd (latestPrice symbol w) = w.
Proof.
  unfold latestPrice.
  destruct (find_etf w symbol) as [e|]; [|reflexivity].
  destruct (prices e) as [r|]; [|reflexivity].
  destruct (read w r); reflexivity.
Qed.

Lemma totals_step_preserved (acc : number * number * World) (p : Purchase.t) :
  preserved (snd acc) (snd (totals_step acc p)).
Proof.
  destruct acc as [[i c] w]. unfold totals_step.
  pose proof (priceAt_preserved (Purchase.symbol p) (Purchase.ts p) w) as H1.
  destruct (priceAt (Purchase.symbol p) (Purchase.ts p) w) as [u1 w1].
  pose proof (latestPrice_same_world (Purchase.symbol p) w1) as H2.
  destruct (latestPrice (Purchase.symbol p) w1) as [u2 w2].
  cbn [snd] in *. subst w2. exact H1.
Qed.

Lemma totals_loop_preserved (l : list Purchase.t) (acc : number * number * World) :
  preserved (snd acc) (snd (fold_left totals_step l acc)).
Proof.
  revert acc. induction l as [|p l IH]; intros acc; cbn [fold_left].
  - apply preserved_refl.
  - apply preserved_trans with (snd (totals_step acc p)).
    + apply totals_step_preserved.
    + apply IH.
Qed.

Lemma computeTotals_preserved (w : World) : preserved w (snd (computeTotals w)).
Proof.
  unfold computeTotals.
  pose proof (totals_loop_preserved (purchases w) (zero, zero, w)) as H.
  destruct (fold_left totals_step (purchases w) (zero, zero, w)) as [[i c] w'].
  exact H.
Qed.

(** C9.  [priceAt], [latestPrice] and [computeTotals] leave the
    instruments, the purchases and every stored array, elements and order,
    as they found them; [priceAt] sorts a copy, which is the one array it
    adds. *)
Theorem lookups_leave_store_unchanged (w : World) (symbol : string) (ts : Z) :
  preserved w (snd (priceAt symbol ts w)) /\
  snd (latestPrice symbol w) = w /\
  preserved w (snd (computeTotals w)) /\
  (forall w', preserved w w' ->
     forall r, (r < List.length (arrays w))%nat -> read w' r = read w r) /\
  (forall e r, find_etf w symbol = Some e -> prices e = Some r -> read w r <> [] ->
     arrays (snd (priceAt symbol ts w)) = arrays w ++ [sort_by_ts (read w r)]).
Proof.
  split; [apply priceAt_preserved|].
  split; [apply latestPrice_same_world|].
  split; [apply computeTotals_preserved|].
  split.
  - intros w' Hp r Hr. apply preserved_read; assumption.
  - intros e r Hf Hp Hne. rewrite (priceAt_sorts_copy w symbol ts e r Hf Hp Hne).
    reflexivity.
Qed.

End HeapFacts.

(** ** The store model computes what the value model computes *)
Module HeapRefinement.

Lemma find_etf_view (w : Heap.World) (symbol : string) :
  find_etf (Heap.view w) symbol
  = option_map (Heap.view_etf w) (Heap.find_etf w symbol).
Proof.
  unfold find_etf, Heap.find_etf, Heap.view.
  induction (Heap.etfs w) as [|x l IH]; cbn [map find].
  - reflexivity.
  - cbn [Heap.view_etf Etf.symbol].
    destruct (String.eqb (Heap.symbol x) symbol); [reflexivity | exact IH].
Qed.

Lemma priceAt_refines (symbol : string) (ts : Z) (w : Heap.World) :
  fst (Heap.priceAt symbol ts w) = priceAt (Heap.view w) symbol ts.
Proof.
  unfold priceAt. rewrite find_etf_view.
  destruct (Heap.find_etf w symbol) as [e|] eqn:Hf; cbn [option_map].
  2:{ unfold Heap.priceAt. rewrite Hf. reflexivity. }
  cbn [Heap.view_etf Etf.prices].
  destruct (Heap.prices e) as [r|] eqn:Hp.
  2:{ unfold Heap.priceAt. rewrite Hf, Hp. reflexivity. }
  destruct (Heap.read w r) as [|a rest] eqn:R.
  { unfold Heap.priceAt. rewrite Hf, Hp, R. reflexivity. }
  rewrite (HeapFacts.priceAt_sorts_copy w symbol ts e r Hf Hp)
    by (rewrite R; discriminate).
  rewrite R. reflexivity.
Qed.

Lemma latestPrice_refines (symbol : string) (w : Heap.World) :
  fst (Heap.latestPrice symbol w) = latestPrice (Heap.view w) symbol.
Proof.
  unfold latestPrice, Heap.latestPrice. rewrite find_etf_view.
  destruct (Heap.find_etf w symbol) as [e|]; cbn [option_map]; [|reflexivity].
  cbn [Heap.view_etf Etf.prices].
  destruct (Heap.prices e) as [r|]; [|reflexivity].
  destruct (Heap.read w r); reflexivity.
Qed.

Lemma view_preserved (w w' : Heap.World) :
  Heap.well_formed w -> Heap.preserved w w' -> Heap.view w' = Heap.view w.
Proof.
  intros Hwf Hp. unfold Heap.view.
  destruct Hp as (He & Hpu & fresh & Ha). rewrite He.
  apply map_ext_in. intros e Hin. unfold Heap.view_etf. f_equal.
  destruct (Heap.prices e) as [r|] eqn:Hr; [|reflexivity].
  apply HeapFacts.preserved_read.
  - repeat split; [exact He | exact Hpu | exists fresh; exact Ha].
  - apply (Hwf e r Hin Hr).
Qed.

Lemma totals_loop_refines (w : Heap.World) (l : list Purchase.t)
  (i c : number) (w1 : Heap.World) :
  Heap.well_formed w -> Heap.preserved w w1 ->
  fst (fold_left Heap.totals_step l (i, c, w1))
  = fold_left (totals_step (Heap.view w)) l (i, c).
Proof.
  intros Hwf. revert i c w1.
  induction l as [|p l IH]; intros i c w1 Hp; cbn [fold_left].
  - reflexivity.
  - unfold Heap.totals_step at 2.
    pose proof (priceAt_refines (Purchase.symbol p) (Purchase.ts p) w1) as H1.
    pose proof (HeapFacts.priceAt_preserved (Purchase.symbol p) (Purchase.ts p) w1) as P1.
    destruct (Heap.priceAt (Purchase.symbol p) (Purchase.ts p) w1) as [u1 w2].
    pose proof (latestPrice_refines (Purchase.symbol p) w2) as H2.
    pose proof (HeapFacts.latestPrice_same_world (Purchase.symbol p) w2) as P2.
    destruct (Heap.latestPrice (Purchase.symbol p) w2) as [u2 w3].
    cbn [fst snd] in *. subst w3.
    assert (Hp2 : Heap.preserved w w2) by (eapply HeapFacts.preserved_trans; eassumption).
    rewrite (IH _ _ _ Hp2). f_equal.
    unfold totals_step. cbn [fst snd].
    rewrite H1, H2, (view_preserved w w1 Hwf Hp), (view_preserved w w2 Hwf Hp2).
    reflexivity.
Qed.

Lemma computeTotals_refines (w : Heap.World) :
  Heap.well_formed w ->
  fst (Heap.computeTotals w) = computeTotals (Heap.view w) (Heap.purchases w).
Proof.
  intros Hwf. unfold Heap.computeTotals, computeTotals.
  pose proof (totals_loop_refines w (Heap.purchases w) zero zero w Hwf
                (HeapFacts.preserved_refl w)) as H.
  destruct (fold_left Heap.totals_step (Heap.purchases w) (zero, zero, w))
    as [[i c] w'].
  cbn [fst] in H. rewrite <- H. reflexivity.
Qed.

End HeapRefinement.

(** ** The properties on the example data *)

Lemma priceAt_as_of_or_nearest_witness :
  find_etf [example_AAA] "AAA" = Some example_AAA /\
  Etf.prices example_AAA <> [] /\
  (exists q, In q (Etf.prices example_AAA) /\ Obs.ts q <= 150) /\
  (forall q, In q (Etf.prices example_AAA) -> 50 < Obs.ts q) /\
  (exists p, latest_as_of (Etf.prices example_AAA) 150 p /\
             priceAt [example_AAA] "AAA" 150 = Some (Obs.price p)) /\
  (exists p, nearest_to (Etf.prices example_AAA) 50 p /\
             priceAt [example_AAA] "AAA" 50 = Some (Obs.price p)).
Proof.
  assert (Hf : find_etf [example_AAA] "AAA" = Some example_AAA) by reflexivity.
  assert (Hne : Etf.prices example_AAA <> []) by discriminate.
  assert (Hq : exists q, In q (Etf.prices example_AAA) /\ Obs.ts q <= 150).
  { exists (Obs.mk 100 (num 10)). split; [left; reflexivity | simpl; lia]. }
  assert (Hall : forall q, In q (Etf.prices example_AAA) -> 50 < Obs.ts q).
  { intros q [<- | [<- | []]]; simpl; lia. }
  split; [exact Hf|]. split; [exact Hne|]. split; [exact Hq|]. split; [exact Hall|].
  split.
  - destruct (priceAt_as_of_or_nearest [example_AAA] "AAA" 150) as [H _].
    destruct (H example_AAA Hf Hne) as [Hasof _]. exact (Hasof Hq).
  - destruct (priceAt_as_of_or_nearest [example_AAA] "AAA" 50) as [H _].
    destruct (H example_AAA Hf Hne) as [_ Hnear]. exact (Hnear Hall).
Defined.

Lemma latestPrice_max_and_priceAt_after_witness :
  find_etf [example_AAA_reversed] "AAA" = Some example_AAA_reversed /\
  Etf.prices example_AAA_reversed <> [] /\
  latestPrice [example_AAA_reversed] "AAA" = Some (num 20) /\
  priceAt [example_AAA_reversed] "AAA" 200 = latestPrice [example_AAA_reversed] "AAA".
Proof.
  assert (Hf : find_etf [example_AAA_reversed] "AAA" = Some example_AAA_reversed)
    by reflexivity.
  assert (Hne : Etf.prices example_AAA_reversed <> []) by discriminate.
  split; [exact Hf|]. split; [exact Hne|]. split; [reflexivity|].
  destruct (latestPrice_max_and_priceAt_after [example_AAA_reversed] "AAA") as [_ H].
  destruct (H example_AAA_reversed Hf Hne) as (p & [Hin _] & _ & Hafter).
  apply Hafter. destruct Hin as [<- | [<- | []]]; simpl; lia.
Defined.

Lemma computeTotals_spec_witness :
  fgt (invested (computeTotals [example_AAA] [example_purchase])) zero = true /\
  plPct (computeTotals [example_AAA] [example_purchase])
  = fmul (fdiv (pl (computeTotals [example_AAA] [example_purchase]))
               (invested (computeTotals [example_AAA] [example_purchase])))
         (num 100) /\
  fgt (invested (computeTotals [example_AAA] [example_orphan])) zero = false /\
  plPct (computeTotals [example_AAA] [example_orphan]) = zero.
Proof.
  assert (Hpos : fgt (invested (computeTotals [example_AAA] [example_purchase])) zero
                 = true) by (vm_compute; reflexivity).
  assert (Hnot : fgt (invested (computeTotals [example_AAA] [example_orphan])) zero
                 = false) by (vm_compute; reflexivity).
  destruct computeTotals_spec as [H _].
  split; [exact Hpos|]. split.
  - destruct (H [example_AAA] [example_purchase]) as (_ & _ & _ & Hpct & _).
    exact (Hpct Hpos).
  - split; [exact Hnot|].
    destruct (H [example_AAA] [example_orphan]) as (_ & _ & _ & _ & Hz).
    exact (Hz Hnot).
Defined.

Lemma points_strictly_ascending_union_witness :
  event_time [example_AAA] [example_purchase] 150 /\
  In 150 (points [example_AAA] [example_purchase] None None).
Proof.
  assert (Hev : event_time [example_AAA] [example_purchase] 150).
  { right. exists example_purchase. split; [left|]; reflexivity. }
  split; [exact Hev|].
  destruct (points_strictly_ascending_union [example_AAA] [example_purchase])
    as (_ & _ & H).
  apply H. exact Hev.
Defined.

Lemma monthsToReach_spec_witness :
  (fle zero zero = true /\ monthsToReach (num 1200) zero = infinity) /\
  (fle (num 100) zero = false /\ num 100 <> NaN /\ num 1250 <> NaN /\
   monthsToReach (num 1250) (num 100)
   = Math_ceil (fdiv (Math_max0 (num 1250)) (num 100)) /\
   monthsToReach (num 1250) (num 100) = num 13) /\
  (fle (decimal 1 1) zero = false /\ decimal 1 1 <> NaN /\ decimal 11 1 <> NaN /\
   monthsToReach (decimal 11 1) (decimal 1 1) = num 11) /\
  (fle (num 100) zero = false /\ num 100 <> NaN /\ fle (num (-5)) zero = true /\
   monthsToReach (num (-5)) (num 100) = zero).
Proof.
  assert (H0 : fle zero zero = true) by reflexivity.
  assert (H100 : fle (num 100) zero = false) by reflexivity.
  assert (N100 : num 100 <> NaN) by discriminate.
  assert (N1250 : num 1250 <> NaN) by discriminate.
  assert (Hd : fle (decimal 1 1) zero = false) by reflexivity.
  assert (Nd : decimal 1 1 <> NaN) by discriminate.
  assert (Nt : decimal 11 1 <> NaN) by discriminate.
  assert (Hneg : fle (num (-5)) zero = true) by reflexivity.
  split; [|split; [|split]].
  - split; [exact H0|].
    destruct (monthsToReach_spec (num 1200) zero) as [H _]. exact (H H0).
  - split; [exact H100|]. split; [exact N100|]. split; [exact N1250|].
    destruct (monthsToReach_spec (num 1250) (num 100)) as (_ & H & _).
    split; [exact (H H100 N100 N1250)|].
    rewrite (H H100 N100 N1250). vm_compute. reflexivity.
  - split; [exact Hd|]. split; [exact Nd|]. split; [exact Nt|].
    destruct (monthsToReach_spec (decimal 11 1) (decimal 1 1)) as (_ & H & _).
    rewrite (H Hd Nd Nt). vm_compute. reflexivity.
  - split; [exact H100|]. split; [exact N100|]. split; [exact Hneg|].
    destruct (monthsToReach_spec (num (-5)) (num 100)) as (_ & _ & H & _).
    exact (H H100 N100 Hneg).
Defined.

Lemma unpriced_purchase_contributes_nothing_witness :
  find_etf [example_AAA] (Purchase.symbol example_orphan) = None /\
  priceAt [example_AAA] "ZZZ" 150 = None /\
  latestPrice [example_AAA] "ZZZ" = None /\
  computeTotals [example_AAA] ([example_purchase] ++ example_orphan :: [])
  = computeTotals [example_AAA] ([example_purchase] ++ []).
Proof.
  assert (Hf : find_etf [example_AAA] (Purchase.symbol example_orphan) = None)
    by reflexivity.
  split; [exact Hf|].
  destruct (unpriced_purchase_contributes_nothing
              [example_AAA] [example_purchase] [] example_orphan (or_introl Hf))
    as (Hat & Hlatest & Htotals).
  split; [exact (Hat 150)|]. split; [exact Hlatest | exact Htotals].
Defined.

Lemma priceAt_storage_order_irrelevant_witness :
  NoDup (map Obs.ts (Etf.prices example_AAA)) /\
  Permutation (Etf.prices example_AAA) (Etf.prices example_AAA_reversed) /\
  Etf.symbol example_AAA_reversed = Etf.symbol example_AAA /\
  priceAt ([] ++ example_AAA_reversed :: []) "AAA" 150
  = priceAt ([] ++ example_AAA :: []) "AAA" 150.
Proof.
  assert (Hn : NoDup (map Obs.ts (Etf.prices example_AAA))).
  { simpl. constructor.
    - intros [H | []]. discriminate H.
    - constructor; [intros [] | constructor]. }
  assert (Hp : Permutation (Etf.prices example_AAA) (Etf.prices example_AAA_reversed))
    by apply perm_swap.
  split; [exact Hn|]. split; [exact Hp|]. split; [reflexivity|].
  exact (priceAt_storage_order_irrelevant [] [] example_AAA example_AAA_reversed
           "AAA" 150 Hn Hp eq_refl).
Defined.

Lemma importAll_atomic_witness :
  ~ App.valid_document example_parse "{}" /\
  App.etfs (snd (App.importAll example_parse (fun _ => EmptyString) (fun _ => None)
                               (fun items => (items, None)) "{}" example_state))
  = App.etfs example_state /\
  App.alerts (snd (App.importAll example_parse (fun _ => EmptyString) (fun _ => None)
                                 (fun items => (items, None)) "{}" example_state))
  = App.alerts example_state ++ [App.ImportFailed].
Proof.
  assert (Hinv : ~ App.valid_document example_parse "{}").
  { intros (fields & e & p & Hparse & _ & Hp).
    injection Hparse as <-. discriminate Hp. }
  split; [exact Hinv|].
  destruct (AppFacts.importAll_atomic example_parse (fun _ => EmptyString)
              (fun _ => None) (fun items => (items, None)) "{}" example_state)
    as [H _].
  destruct (H Hinv) as (He & _ & _ & _ & _ & Ha).
  split; [exact He | exact Ha].
Defined.

Lemma lookups_leave_store_unchanged_witness :
  Heap.find_etf example_world "AAA" = Some (Heap.mkEtf "AAA" "AAA" (Some 0%nat)) /\
  Heap.read example_world 0 <> [] /\
  Heap.read (snd (Heap.priceAt "AAA" 150 example_world)) 0
  = [Obs.mk 200 (num 20); Obs.mk 100 (num 10)] /\
  Heap.arrays (snd (Heap.priceAt "AAA" 150 example_world))
  = [[Obs.mk 200 (num 20); Obs.mk 100 (num 10)]; [Obs.mk 100 (num 10); Obs.mk 200 (num 20)]].
Proof.
  assert (Hf : Heap.find_etf example_world "AAA"
               = Some (Heap.mkEtf "AAA" "AAA" (Some 0%nat))) by reflexivity.
  assert (Hne : Heap.read example_world 0 <> []) by discriminate.
  split; [exact Hf|]. split; [exact Hne|].
  destruct (HeapFacts.lookups_leave_store_unchanged example_world "AAA" 150)
    as (Hpres & _ & _ & Hread & Hcopy).
  split.
  - exact (Hread _ Hpres 0%nat (Nat.lt_0_succ 0)).
  - exact (Hcopy _ 0%nat Hf eq_refl Hne).
Defined.

(** * Further properties of the code *)

(** ** Editing instruments *)

(** Sorting a sorted list changes nothing. *)
Lemma sort_by_sorted_id (A : Type) (key : A -> Z) (l : list A) :
  key_sorted key l -> sort_by key l = l.
Proof.
  induction l as [|x l IH]; intros Hs.
  - reflexivity.
  - apply key_sorted_inv in Hs as [Hs Hx].
    cbn [sort_by fold_right]. change (fold_right (insert_by key) [] l) with (sort_by key l).
    rewrite (IH Hs). apply insert_by_front, Hx.
Qed.

Lemma sort_by_ts_idempotent (l : list Obs.t) :
  sort_by_ts (sort_by_ts l) = sort_by_ts l.
Proof.
  unfold sort_by_ts. apply sort_by_sorted_id, sort_by_sorted.
Qed.

(** The instrument found for a symbol no earlier instrument carries. *)
Lemma find_etf_middle (before after : list Etf.t) (e : Etf.t) :
  (forall x, In x before -> Etf.symbol x <> Etf.symbol e) ->
  find_etf (before ++ e :: after) (Etf.symbol e) = Some e.
Proof.
  unfold find_etf. induction before as [|x before IH]; intros Hb; cbn [app find].
  - rewrite String.eqb_refl. reflexivity.
  - destruct (String.eqb_spec (Etf.symbol x) (Etf.symbol e)) as [Heq | _].
    + exfalso. apply (Hb x); [left; reflexivity | exact Heq].
    + apply IH. intros y Hy. apply Hb. right. exact Hy.
Qed.

(** Replacing an instrument by one with the same symbol changes no lookup
    of another symbol. *)
Lemma find_etf_other (before after : list Etf.t) (e e' : Etf.t) (s : string) :
  Etf.symbol e' = Etf.symbol e -> s <> Etf.symbol e ->
  find_etf (before ++ e' :: after) s = find_etf (before ++ e :: after) s.
Proof.
  intros Hsym Hs. unfold find_etf.
  induction before as [|x before IH]; cbn [app find].
  - rewrite Hsym. destruct (String.eqb_spec (Etf.symbol e) s) as [Heq | _].
    + exfalso. apply Hs. symmetry. exact Heq.
    + reflexivity.
  - destruct (String.eqb (Etf.symbol x) s); [reflexivity | exact IH].
Qed.

(** An observation appended after observations that are not later is the
    one [reduce] ends on. *)
Lemma latest_obs_app_last (l : list Obs.t) (o : Obs.t) :
  (forall q, In q l -> Obs.ts q <= Obs.ts o) -> latest_obs (l ++ [o]) = Some o.
Proof.
  destruct l as [|a rest]; intros Hl.
  - reflexivity.
  - cbn [app latest_obs]. unfold reduce_latest. rewrite fold_left_app.
    cbn [fold_left]. fold (reduce_latest a rest). f_equal.
    destruct (later_of_cases (reduce_latest a rest) o) as [[_ Hlt] | [E _]];
      [|exact E].
    pose proof (Hl _ (reduce_latest_In rest a)). lia.
Qed.

Lemma addPrice_accepted (e : Etf.t) (ts : Z) (price : number) :
  isFinite price = true -> flt price zero = false ->
  addPrice e ts price
  = Etf.mk (Etf.symbol e) (Etf.name e)
           (sort_by_ts (Etf.prices e ++ [Obs.mk ts price])).
Proof.
  intros Hf Hp. unfold addPrice. rewrite Hf, Hp. reflexivity.
Qed.

Lemma addPrice_symbol (e : Etf.t) (ts : Z) (priceVal : number) :
  Etf.symbol (addPrice e ts priceVal) = Etf.symbol e.
Proof.
  unfold addPrice.
  destruct (negb (isFinite priceVal) || flt priceVal zero); reflexivity.
Qed.

(** X3.  After a price is added to an instrument at time [ts], [priceAt]
    returns that price at [ts] and at every later time up to the next
    stored observation, also when an observation was already stored at
    [ts]: the newly added one wins. *)
Theorem addPrice_then_priceAt
  (before after : list Etf.t) (e : Etf.t) (ts t : Z) (price : number) :
  (forall x, In x before -> Etf.symbol x <> Etf.symbol e) ->
  isFinite price = true -> flt price zero = false ->
  ts <= t ->
  (forall q, In q (Etf.prices e) -> Obs.ts q <= t -> Obs.ts q <= ts) ->
  priceAt (before ++ addPrice e ts price :: after) (Etf.symbol e) t
  = Some price.
Proof.
  intros Hb Hfin Hp Ht Hgap. rewrite (addPrice_accepted e ts price Hfin Hp).
  set (e' := Etf.mk (Etf.symbol e) (Etf.name e)
                    (sort_by_ts (Etf.prices e ++ [Obs.mk ts price]))).
  assert (Hf : find_etf (before ++ e' :: after) (Etf.symbol e) = Some e').
  { apply (find_etf_middle before after e'). exact Hb. }
  assert (Hne : Etf.prices e' <> []).
  { cbn [e' Etf.prices]. apply sort_by_ts_nonempty.
    destruct (Etf.prices e); discriminate. }
  rewrite (priceAt_found _ _ _ _ Hf Hne). cbn [e' Etf.prices].
  rewrite sort_by_ts_idempotent. unfold price_scan.
  rewrite candidate_spec, filter_app. cbn [filter Obs.ts].
  assert (E : (ts <=? t) = true) by (apply Z.leb_le, Ht). rewrite E.
  rewrite latest_obs_app_last; [reflexivity|].
  intros q Hq. apply filter_In in Hq as [Hq Hle]. apply Z.leb_le in Hle.
  cbn [Obs.ts]. apply Hgap; assumption.
Qed.

Lemma addPrice_then_priceAt_witness :
  (forall x, In x [] -> Etf.symbol x <> Etf.symbol example_AAA) /\
  isFinite (num 15) = true /\ flt (num 15) zero = false /\ 100 <= 150 /\
  (forall q, In q (Etf.prices example_AAA) -> Obs.ts q <= 150 -> Obs.ts q <= 100) /\
  priceAt ([] ++ addPrice example_AAA 100 (num 15) :: []) "AAA" 150 = Some (num 15).
Proof.
  assert (Hb : forall x, In x [] -> Etf.symbol x <> Etf.symbol example_AAA)
    by (intros x []).
  assert (Hfin : isFinite (num 15) = true) by reflexivity.
  assert (Hp : flt (num 15) zero = false) by reflexivity.
  assert (Ht : 100 <= 150) by lia.
  assert (Hgap : forall q, In q (Etf.prices example_AAA) ->
                           Obs.ts q <= 150 -> Obs.ts q <= 100).
  { intros q [<- | [<- | []]]; simpl; lia. }
  split; [exact Hb|]. split; [exact Hfin|]. split; [exact Hp|].
  split; [exact Ht|]. split; [exact Hgap|].
  exact (addPrice_then_priceAt [] [] example_AAA 100 150 (num 15) Hb Hfin Hp Ht Hgap).
Defined.

(** X4.  Adding a price, accepted or not, at a time after [t] changes no
    price at [t] of an instrument that has an observation at or before
    [t]: [priceAt] does not look ahead. *)
Theorem addPrice_later_keeps_priceAt
  (before after : list Etf.t) (e : Etf.t) (ts t : Z) (priceVal : number) :
  (forall x, In x before -> Etf.symbol x <> Etf.symbol e) ->
  t < ts ->
  (exists q, In q (Etf.prices e) /\ Obs.ts q <= t) ->
  priceAt (before ++ addPrice e ts priceVal :: after) (Etf.symbol e) t
  = priceAt (before ++ e :: after) (Etf.symbol e) t.
Proof.
  intros Hb Ht (q & Hq & Hqt). unfold addPrice.
  destruct (negb (isFinite priceVal) || flt priceVal zero); [reflexivity|].
  set (e' := Etf.mk (Etf.symbol e) (Etf.name e)
                    (sort_by_ts (Etf.prices e ++ [Obs.mk ts priceVal]))).
  assert (Hf' : find_etf (before ++ e' :: after) (Etf.symbol e) = Some e').
  { apply (find_etf_middle before after e'). exact Hb. }
  assert (Hf : find_etf (before ++ e :: after) (Etf.symbol e) = Some e)
    by (apply find_etf_middle, Hb).
  assert (Hne : Etf.prices e <> []) by (intros H; rewrite H in Hq; destruct Hq).
  assert (Hne' : Etf.prices e' <> []).
  { cbn [e' Etf.prices]. apply sort_by_ts_nonempty.
    destruct (Etf.prices e); discriminate. }
  rewrite (priceAt_found _ _ _ _ Hf' Hne'), (priceAt_found _ _ _ _ Hf Hne).
  cbn [e' Etf.prices]. rewrite sort_by_ts_idempotent. unfold price_scan.
  rewrite !candidate_spec, filter_app. cbn [filter Obs.ts].
  assert (E : (ts <=? t) = false) by (apply Z.leb_gt, Ht).
  rewrite E, app_nil_r.
  destruct (latest_obs (filter (fun q => Obs.ts q <=? t) (Etf.prices e))) eqn:L;
    [reflexivity|].
  exfalso.
  assert (Hin : In q (filter (fun q => Obs.ts q <=? t) (Etf.prices e))).
  { apply filter_In. split; [exact Hq | apply Z.leb_le, Hqt]. }
  destruct (filter (fun q => Obs.ts q <=? t) (Etf.prices e));
    [destruct Hin | discriminate].
Qed.

Lemma addPrice_later_keeps_priceAt_witness :
  (forall x, In x [] -> Etf.symbol x <> Etf.symbol example_AAA) /\
  150 < 180 /\
  (exists q, In q (Etf.prices example_AAA) /\ Obs.ts q <= 150) /\
  priceAt ([] ++ addPrice example_AAA 180 (num 15) :: []) "AAA" 150
  = priceAt ([] ++ example_AAA :: []) "AAA" 150.
Proof.
  assert (Hb : forall x, In x [] -> Etf.symbol x <> Etf.symbol example_AAA)
    by (intros x []).
  assert (Ht : 150 < 180) by lia.
  assert (Hq : exists q, In q (Etf.prices example_AAA) /\ Obs.ts q <= 150).
  { exists (Obs.mk 100 (num 10)). split; [left; reflexivity | simpl; lia]. }
  split; [exact Hb|]. split; [exact Ht|]. split; [exact Hq|].
  exact (addPrice_later_keeps_priceAt [] [] example_AAA 180 150 (num 15) Hb Ht Hq).
Defined.

(** X5.  [addPrice] keeps the symbol and the name; an accepted price
    leaves the stored observations ascending by timestamp and made of the
    former ones and the new one, whatever their former order; a price that
    is not finite or is negative changes nothing; and no lookup of another
    symbol changes. *)
Theorem addPrice_stored_list (e : Etf.t) (ts : Z) (priceVal : number) :
  Etf.symbol (addPrice e ts priceVal) = Etf.symbol e /\
  Etf.name (addPrice e ts priceVal) = Etf.name e /\
  (isFinite priceVal = true -> flt priceVal zero = false ->
     key_sorted Obs.ts (Etf.prices (addPrice e ts priceVal)) /\
     Permutation (Etf.prices (addPrice e ts priceVal))
                 (Obs.mk ts priceVal :: Etf.prices e)) /\
  ((isFinite priceVal = false \/ flt priceVal zero = true) ->
   addPrice e ts priceVal = e) /\
  (forall before after s t,
     s <> Etf.symbol e ->
     priceAt (before ++ addPrice e ts priceVal :: after) s t
     = priceAt (before ++ e :: after) s t /\
     latestPrice (before ++ addPrice e ts priceVal :: after) s
     = latestPrice (before ++ e :: after) s).
Proof.
  split; [apply addPrice_symbol|]. split.
  { unfold addPrice.
    destruct (negb (isFinite priceVal) || flt priceVal zero); reflexivity. }
  split; [|split].
  - intros Hfin Hp. rewrite (addPrice_accepted e ts priceVal Hfin Hp).
    cbn [Etf.prices]. split.
    + apply sort_by_sorted.
    + apply perm_trans with (Etf.prices e ++ [Obs.mk ts priceVal]).
      * apply sort_by_perm.
      * apply Permutation_sym, Permutation_cons_append.
  - intros [Hinf | Hneg]; unfold addPrice.
    + rewrite Hinf. reflexivity.
    + rewrite Hneg, orb_true_r. reflexivity.
  - intros before after s t Hs. unfold priceAt, latestPrice.
    rewrite (find_etf_other before after e (addPrice e ts priceVal) s
               (addPrice_symbol e ts priceVal) Hs).
    split; reflexivity.
Qed.

Lemma addPrice_stored_list_witness :
  isFinite (num 15) = true /\ flt (num 15) zero = false /\
  key_sorted Obs.ts (Etf.prices (addPrice example_AAA_reversed 150 (num 15))) /\
  Permutation (Etf.prices (addPrice example_AAA_reversed 150 (num 15)))
              (Obs.mk 150 (num 15) :: Etf.prices example_AAA_reversed) /\
  flt (num (-1)) zero = true /\
  addPrice example_AAA_reversed 150 (num (-1)) = example_AAA_reversed /\
  isFinite NaN = false /\
  addPrice example_AAA_reversed 150 NaN = example_AAA_reversed.
Proof.
  assert (Hfin : isFinite (num 15) = true) by reflexivity.
  assert (Hp : flt (num 15) zero = false) by reflexivity.
  assert (Hneg : flt (num (-1)) zero = true) by reflexivity.
  assert (Hnan : isFinite NaN = false) by reflexivity.
  split; [exact Hfin|]. split; [exact Hp|].
  destruct (addPrice_stored_list example_AAA_reversed 150 (num 15))
    as (_ & _ & H & _).
  destruct (H Hfin Hp) as [Hs Hperm].
  split; [exact Hs|]. split; [exact Hperm|]. split; [exact Hneg|].
  destruct (addPrice_stored_list example_AAA_reversed 150 (num (-1)))
    as (_ & _ & _ & Hrej & _).
  split; [exact (Hrej (or_intror Hneg))|]. split; [exact Hnan|].
  destruct (addPrice_stored_list example_AAA_reversed 150 NaN)
    as (_ & _ & _ & Hrej' & _).
  exact (Hrej' (or_introl Hnan)).
Defined.

(** When symbols are pairwise distinct, the instrument found for a symbol
    does not depend on the order of the instruments. *)
Lemma find_etf_perm (etfs etfs' : list Etf.t) (s : string) :
  Permutation etfs etfs' -> NoDup (map Etf.symbol etfs) ->
  find_etf etfs' s = find_etf etfs s.
Proof.
  unfold find_etf. intros HP. induction HP as [|x l l' HP IH|x y l|l l' l'' HP1 IH1 HP2 IH2];
    intros Hn.
  - reflexivity.
  - cbn [find]. destruct (String.eqb (Etf.symbol x) s); [reflexivity|].
    apply IH. inversion Hn. assumption.
  - cbn [find].
    destruct (String.eqb_spec (Etf.symbol x) s) as [Hx|_];
      destruct (String.eqb_spec (Etf.symbol y) s) as [Hy|_]; try reflexivity.
    exfalso. inversion Hn as [|? ? Hnotin _]. apply Hnotin.
    cbn [map]. left. congruence.
  - rewrite IH2, IH1; [reflexivity | exact Hn |].
    apply Permutation_NoDup with (map Etf.symbol l); [|exact Hn].
    apply Permutation_map, HP1.
Qed.

Lemma totals_loop_ext (etfs etfs' : list Etf.t) (purchases : list Purchase.t)
  (acc : number * number) :
  (forall p, In p purchases ->
             find_etf etfs' (Purchase.symbol p) = find_etf etfs (Purchase.symbol p)) ->
  fold_left (totals_step etfs') purchases acc
  = fold_left (totals_step etfs) purchases acc.
Proof.
  revert acc. induction purchases as [|p purchases IH]; intros acc Hf.
  - reflexivity.
  - cbn [fold_left].
    assert (Hstep : totals_step etfs' acc p = totals_step etfs acc p).
    { unfold totals_step, priceAt, latestPrice.
      rewrite (Hf p) by (left; reflexivity). reflexivity. }
    rewrite Hstep. apply IH. intros q Hq. apply Hf. right. exact Hq.
Qed.

(** X6.  [renderEtfs] sorts the instrument array in place.  When the
    symbols are pairwise distinct, no reordering of the instruments
    changes a price, a latest price or the totals. *)
Theorem etfs_order_irrelevant (etfs etfs' : list Etf.t) :
  NoDup (map Etf.symbol etfs) -> Permutation etfs etfs' ->
  (forall s t, priceAt etfs' s t = priceAt etfs s t) /\
  (forall s, latestPrice etfs' s = latestPrice etfs s) /\
  (forall purchases, computeTotals etfs' purchases = computeTotals etfs purchases).
Proof.
  intros Hn HP.
  assert (Hf : forall s, find_etf etfs' s = find_etf etfs s)
    by (intros s; apply find_etf_perm; assumption).
  split; [|split].
  - intros s t. unfold priceAt. rewrite Hf. reflexivity.
  - intros s. unfold latestPrice. rewrite Hf. reflexivity.
  - intros purchases. unfold computeTotals.
    rewrite (totals_loop_ext etfs etfs' purchases (zero, zero)); [reflexivity|].
    intros p _. apply Hf.
Qed.

Lemma etfs_order_irrelevant_witness :
  NoDup (map Etf.symbol [example_AAA; Etf.mk "BBB" "b" [Obs.mk 500 (num 5)]]) /\
  Permutation [example_AAA; Etf.mk "BBB" "b" [Obs.mk 500 (num 5)]]
              [Etf.mk "BBB" "b" [Obs.mk 500 (num 5)]; example_AAA] /\
  priceAt [Etf.mk "BBB" "b" [Obs.mk 500 (num 5)]; example_AAA] "BBB" 100
  = priceAt [example_AAA; Etf.mk "BBB" "b" [Obs.mk 500 (num 5)]] "BBB" 100.
Proof.
  assert (Hn : NoDup (map Etf.symbol [example_AAA; Etf.mk "BBB" "b" [Obs.mk 500 (num 5)]])).
  { simpl. constructor.
    - intros [H | []]. discriminate H.
    - constructor; [intros [] | constructor]. }
  assert (HP : Permutation [example_AAA; Etf.mk "BBB" "b" [Obs.mk 500 (num 5)]]
                           [Etf.mk "BBB" "b" [Obs.mk 500 (num 5)]; example_AAA])
    by apply perm_swap.
  split; [exact Hn|]. split; [exact HP|].
  destruct (etfs_order_irrelevant _ _ Hn HP) as [H _]. exact (H "BBB"%string 100).
Defined.

Lemma find_etf_none_iff (etfs : list Etf.t) (s : string) :
  find_etf etfs s = None <-> ~ In s (map Etf.symbol etfs).
Proof.
  unfold find_etf. induction etfs as [|x etfs IH]; cbn [find map In].
  - split; [intros _ [] | reflexivity].
  - destruct (String.eqb_spec (Etf.symbol x) s) as [Heq | Hne].
    + split; [discriminate | intros H; exfalso; apply H; left; exact Heq].
    + rewrite IH. tauto.
Qed.

Lemma existsb_symbol_find (etfs : list Etf.t) (s : string) :
  existsb (fun x => String.eqb (Etf.symbol x) s) etfs = true <->
  find_etf etfs s <> None.
Proof.
  unfold find_etf. induction etfs as [|x etfs IH]; cbn [existsb find].
  - split; [discriminate | intros H; contradiction].
  - destruct (String.eqb (Etf.symbol x) s); cbn [orb].
    + split; [discriminate | reflexivity].
    + exact IH.
Qed.

Lemma find_etf_app_found (etfs extra : list Etf.t) (s : string) (e : Etf.t) :
  find_etf etfs s = Some e -> find_etf (etfs ++ extra) s = Some e.
Proof.
  unfold find_etf. induction etfs as [|x etfs IH]; cbn [app find].
  - discriminate.
  - destruct (String.eqb (Etf.symbol x) s); [intros H; exact H | exact IH].
Qed.

Lemma find_etf_app_missing (etfs extra : list Etf.t) (s : string) :
  find_etf etfs s = None -> find_etf (etfs ++ extra) s = find_etf extra s.
Proof.
  unfold find_etf. induction etfs as [|x etfs IH]; cbn [app find].
  - reflexivity.
  - destruct (String.eqb (Etf.symbol x) s); [discriminate | exact IH].
Qed.

(** X7.  The add-instrument form keeps symbols pairwise distinct and
    never hides or changes an instrument already stored; a symbol already
    in use is refused with the alert; a new symbol (with a name) is
    appended without observations, so it has no price yet. *)
Theorem addEtf_keeps_symbols_unique (etfs : list Etf.t) (symbol name : string) :
  (NoDup (map Etf.symbol etfs) ->
   NoDup (map Etf.symbol (fst (addEtf etfs symbol name)))) /\
  (forall s e, find_etf etfs s = Some e ->
               find_etf (fst (addEtf etfs symbol name)) s = Some e) /\
  (symbol <> EmptyString -> name <> EmptyString -> find_etf etfs symbol <> None ->
   addEtf etfs symbol name = (etfs, true)) /\
  (symbol <> EmptyString -> name <> EmptyString -> find_etf etfs symbol = None ->
   addEtf etfs symbol name = (etfs ++ [Etf.mk symbol name []], false) /\
   find_etf (fst (addEtf etfs symbol name)) symbol = Some (Etf.mk symbol name []) /\
   (forall t, priceAt (fst (addEtf etfs symbol name)) symbol t = None) /\
   latestPrice (fst (addEtf etfs symbol name)) symbol = None).
Proof.
  assert (Hcases :
    addEtf etfs symbol name = (etfs, false) \/
    addEtf etfs symbol name = (etfs, true) \/
    (find_etf etfs symbol = None /\
     addEtf etfs symbol name = (etfs ++ [Etf.mk symbol name []], false))).
  { unfold addEtf. destruct (String.eqb symbol "" || String.eqb name ""); [left; reflexivity|].
    destruct (existsb (fun x => String.eqb (Etf.symbol x) symbol) etfs) eqn:E.
    - right. left. reflexivity.
    - right. right. split; [|reflexivity].
      destruct (find_etf etfs symbol) eqn:F; [|reflexivity].
      assert (H : existsb (fun x => String.eqb (Etf.symbol x) symbol) etfs = true)
        by (apply existsb_symbol_find; rewrite F; discriminate).
      rewrite H in E. discriminate. }
  assert (Hgo : symbol <> EmptyString -> name <> EmptyString ->
                (String.eqb symbol "" || String.eqb name "") = false).
  { intros Hs Hn. apply orb_false_iff. split; apply String.eqb_neq; assumption. }
  split; [|split; [|split]].
  - intros Hn. destruct Hcases as [-> | [-> | [Hnone ->]]]; cbn [fst]; try exact Hn.
    rewrite map_app. cbn [map Etf.symbol].
    apply NoDup_app; [exact Hn | constructor; [intros [] | constructor] |].
    intros s Hs [<- | []]. apply find_etf_none_iff in Hnone. contradiction.
  - intros s e Hf. destruct Hcases as [-> | [-> | [_ ->]]]; cbn [fst]; try exact Hf.
    apply find_etf_app_found, Hf.
  - intros Hs Hn Hfound. unfold addEtf. rewrite (Hgo Hs Hn).
    apply existsb_symbol_find in Hfound. rewrite Hfound. reflexivity.
  - intros Hs Hn Hnone.
    assert (Hadd : addEtf etfs symbol name = (etfs ++ [Etf.mk symbol name []], false)).
    { unfold addEtf. rewrite (Hgo Hs Hn).
      destruct (existsb (fun x => String.eqb (Etf.symbol x) symbol) etfs) eqn:E;
        [|reflexivity].
      apply existsb_symbol_find in E. contradiction. }
    rewrite Hadd. cbn [fst].
    assert (Hf : find_etf (etfs ++ [Etf.mk symbol name []]) symbol
                 = Some (Etf.mk symbol name [])).
    { rewrite (find_etf_app_missing _ _ _ Hnone). unfold find_etf. cbn [find Etf.symbol].
      rewrite String.eqb_refl. reflexivity. }
    split; [reflexivity|]. split; [exact Hf|].
    apply unpriced_symbol. right. eexists. split; [exact Hf | reflexivity].
Qed.

Lemma addEtf_keeps_symbols_unique_witness :
  "BBB"%string <> EmptyString /\ "Beta"%string <> EmptyString /\
  find_etf [example_AAA] "BBB" = None /\
  addEtf [example_AAA] "BBB" "Beta"
  = ([example_AAA] ++ [Etf.mk "BBB" "Beta" []], false) /\
  addEtf [example_AAA] "AAA" "again" = ([example_AAA], true).
Proof.
  assert (Hs : "BBB"%string <> EmptyString) by discriminate.
  assert (Hn : "Beta"%string <> EmptyString) by discriminate.
  assert (Hnone : find_etf [example_AAA] "BBB" = None) by reflexivity.
  split; [exact Hs|]. split; [exact Hn|]. split; [exact Hnone|]. split.
  - destruct (addEtf_keeps_symbols_unique [example_AAA] "BBB" "Beta")
      as (_ & _ & _ & H).
    destruct (H Hs Hn Hnone) as [Hadd _]. exact Hadd.
  - destruct (addEtf_keeps_symbols_unique [example_AAA] "AAA" "again")
      as (_ & _ & H & _).
    apply H; discriminate.
Defined.

Lemma find_etf_filter_other (etfs : list Etf.t) (symbol s : string) :
  s <> symbol ->
  find_etf (filter (fun x => negb (String.eqb (Etf.symbol x) symbol)) etfs) s
  = find_etf etfs s.
Proof.
  intros Hs. unfold find_etf. induction etfs as [|x etfs IH]; cbn [filter find].
  - reflexivity.
  - destruct (String.eqb_spec (Etf.symbol x) symbol) as [Heq | Hne]; cbn [negb find].
    + destruct (String.eqb_spec (Etf.symbol x) s) as [Heq' | _]; [|exact IH].
      exfalso. apply Hs. congruence.
    + destruct (String.eqb (Etf.symbol x) s); [reflexivity | exact IH].
Qed.

Lemma find_etf_filter_same (etfs : list Etf.t) (symbol : string) :
  find_etf (filter (fun x => negb (String.eqb (Etf.symbol x) symbol)) etfs) symbol
  = None.
Proof.
  unfold find_etf. induction etfs as [|x etfs IH]; cbn [filter find].
  - reflexivity.
  - destruct (String.eqb (Etf.symbol x) symbol) eqn:E; cbn [negb find].
    + exact IH.
    + rewrite E. exact IH.
Qed.

Lemma totals_loop_without (etfs etfs' : list Etf.t) (symbol : string)
  (purchases : list Purchase.t) (acc : number * number) :
  find_etf etfs' symbol = None ->
  (forall s, s <> symbol -> find_etf etfs' s = find_etf etfs s) ->
  fold_left (totals_step etfs') purchases acc
  = fold_left (totals_step etfs)
              (filter (fun p => negb (String.eqb (Purchase.symbol p) symbol)) purchases)
              acc.
Proof.
  intros Hnone Hother. revert acc.
  induction purchases as [|p purchases IH]; intros acc; cbn [fold_left filter].
  - reflexivity.
  - destruct (String.eqb_spec (Purchase.symbol p) symbol) as [Heq | Hne]; cbn [negb].
    + assert (Hstep : totals_step etfs' acc p = acc).
      { destruct acc as [i c]. unfold totals_step, priceAt, latestPrice.
        rewrite Heq, Hnone. reflexivity. }
      rewrite Hstep. apply IH.
    + cbn [fold_left].
      assert (Hstep : totals_step etfs' acc p = totals_step etfs acc p).
      { unfold totals_step, priceAt, latestPrice. rewrite (Hother _ Hne). reflexivity. }
      rewrite Hstep. apply IH.
Qed.

(** X8.  After an instrument is deleted its symbol is not found any more
    (nor listed as expanded) and every other lookup is unchanged; the
    purchases of the symbol stay stored but count for nothing: the totals
    are those of the other purchases before the deletion. *)
Theorem deleteEtf_makes_purchases_inert
  (etfs : list Etf.t) (expandedEtfs : list string) (symbol : string) :
  find_etf (fst (deleteEtf etfs expandedEtfs symbol)) symbol = None /\
  (forall s, s <> symbol ->
     find_etf (fst (deleteEtf etfs expandedEtfs symbol)) s = find_etf etfs s) /\
  ~ In symbol (snd (deleteEtf etfs expandedEtfs symbol)) /\
  (forall purchases,
     computeTotals (fst (deleteEtf etfs expandedEtfs symbol)) purchases
     = computeTotals etfs
         (filter (fun p => negb (String.eqb (Purchase.symbol p) symbol)) purchases)).
Proof.
  cbn [deleteEtf fst snd].
  split; [apply find_etf_filter_same|].
  split; [intros s Hs; apply find_etf_filter_other, Hs|].
  split.
  - intros Hin. apply filter_In in Hin as [_ H].
    rewrite String.eqb_refl in H. discriminate.
  - intros purchases. unfold computeTotals.
    rewrite (totals_loop_without etfs _ symbol purchases (zero, zero)).
    + reflexivity.
    + apply find_etf_filter_same.
    + intros s Hs. apply find_etf_filter_other, Hs.
Qed.

Lemma deleteEtf_makes_purchases_inert_witness :
  "BBB"%string <> "AAA"%string /\
  find_etf [example_AAA; example_BBB] "AAA" = Some example_AAA /\
  find_etf (fst (deleteEtf [example_AAA; example_BBB]
                           ["AAA"%string; "BBB"%string] "AAA")) "AAA" = None /\
  find_etf (fst (deleteEtf [example_AAA; example_BBB]
                           ["AAA"%string; "BBB"%string] "AAA")) "BBB"
  = Some example_BBB /\
  ~ In "AAA"%string (snd (deleteEtf [example_AAA; example_BBB]
                                     ["AAA"%string; "BBB"%string] "AAA")) /\
  computeTotals [example_AAA; example_BBB] [example_purchase; example_BBB_purchase]
  = mkTotals (num 60) (num 110) (num 50) (fmul (fdiv (num 50) (num 60)) (num 100)) /\
  computeTotals (fst (deleteEtf [example_AAA; example_BBB]
                                ["AAA"%string; "BBB"%string] "AAA"))
                [example_purchase; example_BBB_purchase]
  = mkTotals (num 10) (num 10) zero zero.
Proof.
  assert (Hne : "BBB"%string <> "AAA"%string) by discriminate.
  destruct (deleteEtf_makes_purchases_inert [example_AAA; example_BBB]
              ["AAA"%string; "BBB"%string] "AAA")
    as (Hgone & Hother & Hexp & Htotals).
  split; [exact Hne|]. split; [reflexivity|]. split; [exact Hgone|].
  split; [rewrite (Hother "BBB"%string Hne); reflexivity|].
  split; [exact Hexp|]. split; [vm_compute; reflexivity|].
  rewrite Htotals. vm_compute. reflexivity.
Defined.

(** ** Editing purchases *)

(** [!isFinite(x) || x <= 0] fails exactly for the finite positive
    numbers. *)
Lemma not_positive_false (x : number) :
  not_positive x = false <-> isFinite x = true /\ fgt x zero = true.
Proof.
  unfold not_positive.
  destruct x as [s | s | | s m e]; try destruct s; cbn;
    split; try discriminate; try (intros [? ?]; discriminate);
    intros _; try split; reflexivity.
Qed.

(** The last step of the submit handler, on the quantity it ends with. *)
Lemma submitPurchase_direct (etfs : list Etf.t) (purchases : list Purchase.t)
  (symbol : string) (ts : Z) (q sumVal : number) :
  symbol <> EmptyString -> isFinite q = true -> fgt q zero = true ->
  submitPurchase etfs purchases symbol ts q sumVal
  = (purchases ++ [Purchase.mk ts symbol q], false).
Proof.
  intros Hs Hfin Hq. unfold submitPurchase.
  assert (Hnp : not_positive q = false) by (apply not_positive_false; split; assumption).
  rewrite Hnp. cbn [andb orb].
  apply String.eqb_neq in Hs. rewrite Hs. reflexivity.
Qed.

(** X10.  The add-purchase form only ever appends: it leaves the list as
    it is or adds one purchase of the selected symbol and time at its end;
    what it adds has a non-empty symbol and a finite positive quantity, so
    a list of such purchases stays one; when it shows the no-price alert it
    adds nothing; and a finite positive quantity input is stored as typed,
    whatever the amount input. *)
Theorem submitPurchase_appends_valid
  (etfs : list Etf.t) (purchases : list Purchase.t)
  (symbol : string) (ts : Z) (qtyVal sumVal : number) :
  let result := submitPurchase etfs purchases symbol ts qtyVal sumVal in
  (fst result = purchases \/
   exists qty, fst result = purchases ++ [Purchase.mk ts symbol qty] /\
               isFinite qty = true /\ fgt qty zero = true /\
               symbol <> EmptyString) /\
  (Forall (fun p => isFinite (Purchase.qty p) = true /\
                    fgt (Purchase.qty p) zero = true /\
                    Purchase.symbol p <> EmptyString)
          purchases ->
   Forall (fun p => isFinite (Purchase.qty p) = true /\
                    fgt (Purchase.qty p) zero = true /\
                    Purchase.symbol p <> EmptyString)
          (fst result)) /\
  (snd result = true -> fst result = purchases) /\
  (isFinite qtyVal = true -> fgt qtyVal zero = true -> symbol <> EmptyString ->
   result = (purchases ++ [Purchase.mk ts symbol qtyVal], false)).
Proof.
  cbn zeta.
  assert (Hpush : forall q : number,
    let r := if String.eqb symbol "" || not_positive q then (purchases, false)
             else (purchases ++ [Purchase.mk ts symbol q], false) in
    (fst r = purchases \/
     exists qty, fst r = purchases ++ [Purchase.mk ts symbol qty] /\
                 isFinite qty = true /\ fgt qty zero = true /\
                 symbol <> EmptyString) /\
    (snd r = true -> fst r = purchases)).
  { intros q. cbn zeta.
    destruct (String.eqb_spec symbol "") as [Heq | Hne]; cbn [orb];
      [split; [left; reflexivity | reflexivity]|].
    destruct (not_positive q) eqn:E; [split; [left; reflexivity | reflexivity]|].
    cbn [fst snd]. split; [|discriminate].
    apply not_positive_false in E as [Hfin Hq].
    right. exists q. split; [reflexivity|].
    split; [exact Hfin|]. split; [exact Hq | exact Hne]. }
  assert (Hshape :
    (fst (submitPurchase etfs purchases symbol ts qtyVal sumVal) = purchases \/
     exists qty, fst (submitPurchase etfs purchases symbol ts qtyVal sumVal)
                 = purchases ++ [Purchase.mk ts symbol qty] /\
                 isFinite qty = true /\ fgt qty zero = true /\
                 symbol <> EmptyString) /\
    (snd (submitPurchase etfs purchases symbol ts qtyVal sumVal) = true ->
     fst (submitPurchase etfs purchases symbol ts qtyVal sumVal) = purchases)).
  { unfold submitPurchase.
    destruct (not_positive qtyVal && positive sumVal); [|apply Hpush].
    destruct (priceAt etfs symbol ts) as [unit|];
      [|split; [left; reflexivity | reflexivity]].
    destruct (fle unit zero); [split; [left; reflexivity | reflexivity]|].
    apply (Hpush (fdiv sumVal unit)). }
  destruct Hshape as [Hshape Halert].
  split; [exact Hshape|]. split; [|split; [exact Halert|]].
  - intros Hall. destruct Hshape as [-> | (qty & -> & Hfin & Hq & Hs)]; [exact Hall|].
    apply Forall_app. split; [exact Hall|].
    constructor; [|constructor]. cbn [Purchase.qty Purchase.symbol].
    split; [exact Hfin|]. split; assumption.
  - intros Hfin Hq Hs. apply submitPurchase_direct; assumption.
Qed.

Lemma submitPurchase_appends_valid_witness :
  isFinite (num 5) = true /\ fgt (num 5) zero = true /\
  "AAA"%string <> EmptyString /\
  submitPurchase [example_AAA] [] "AAA" 150 (num 5) (num 1)
  = ([] ++ [Purchase.mk 150 "AAA" (num 5)], false).
Proof.
  assert (Hfin : isFinite (num 5) = true) by reflexivity.
  assert (Hq : fgt (num 5) zero = true) by reflexivity.
  assert (Hs : "AAA"%string <> EmptyString) by discriminate.
  split; [exact Hfin|]. split; [exact Hq|]. split; [exact Hs|].
  destruct (submitPurchase_appends_valid [example_AAA] [] "AAA" 150
              (num 5) (num 1)) as (_ & _ & _ & H).
  exact (H Hfin Hq Hs).
Defined.

(** ** Tables and charts *)

Lemma in_range_In (A : Type) (ts : A -> Z) (from to : option Z) (arr : list A) (p : A) :
  In p (in_range ts from to arr) <->
  In p arr /\
  match from with Some f => f <= ts p | None => True end /\
  match to with Some u => ts p <= u | None => True end.
Proof.
  unfold in_range.
  destruct from as [f|], to as [u|]; rewrite ?filter_In, ?Z.leb_le, ?Z.geb_le; tauto.
Qed.

(** The two filters of a date range keep the elements whose timestamp is
    within the range. *)
Lemma in_range_filter (A : Type) (ts : A -> Z) (from to : option Z) (arr : list A) :
  in_range ts from to arr = filter (fun p => within from to (ts p)) arr.
Proof.
  unfold in_range, within.
  assert (Hand : forall (f g : A -> bool) (l : list A),
            filter g (filter f l) = filter (fun p => f p && g p) l).
  { intros f g l. induction l as [|x l IH]; [reflexivity|].
    cbn [filter]. destruct (f x); cbn [filter andb]; rewrite IH; reflexivity. }
  destruct from as [f|], to as [u|].
  - rewrite Hand. apply filter_ext. intros p. rewrite Z.geb_leb. reflexivity.
  - apply filter_ext. intros p. rewrite Z.geb_leb, andb_true_r. reflexivity.
  - apply filter_ext. intros p. reflexivity.
  - symmetry. apply filter_all. intros p _. reflexivity.
Qed.

Lemma sorted_points (l : list Obs.t) :
  key_sorted Obs.ts l ->
  StronglySorted (fun a b : Z * number => fst a <= fst b)
                 (map (fun p => (Obs.ts p, Obs.price p)) l).
Proof.
  induction l as [|x l IH]; intros Hs; cbn [map].
  - constructor.
  - apply key_sorted_inv in Hs as [Hs Hx]. constructor; [apply IH, Hs|].
    apply Forall_forall. intros pt Hpt. apply in_map_iff in Hpt as (q & <- & Hq).
    cbn [fst]. apply Hx, Hq.
Qed.

(** X11.  The points of a dataset of the instrument chart are in ascending
    time order and are exactly the observations of the instrument inside
    the date range, each as many times as it is stored, whatever the
    stored order; a symbol without instrument gives no point. *)
Theorem etfChartData_sorted_in_range
  (etfs : list Etf.t) (sym : string) (from to : option Z) :
  StronglySorted (fun a b : Z * number => fst a <= fst b)
                 (etfChartData etfs sym from to) /\
  Permutation (etfChartData etfs sym from to)
              (map (fun p => (Obs.ts p, Obs.price p))
                   (filter (fun p => within from to (Obs.ts p))
                           (match find_etf etfs sym with
                            | Some e => Etf.prices e
                            | None => []
                            end))) /\
  (forall x y,
     In (x, y) (etfChartData etfs sym from to) <->
     exists e, find_etf etfs sym = Some e /\ In (Obs.mk x y) (Etf.prices e) /\
               match from with Some f => f <= x | None => True end /\
               match to with Some u => x <= u | None => True end) /\
  (find_etf etfs sym = None -> etfChartData etfs sym from to = []).
Proof.
  unfold etfChartData. split; [|split; [|split]].
  - apply sorted_points. apply sort_by_sorted.
  - apply Permutation_map. rewrite <- in_range_filter. apply sort_by_perm.
  - intros x y. rewrite in_map_iff. split.
    + intros (p & Hp & Hin). unfold sort_by_ts in Hin.
      rewrite (sort_by_In Obs.ts) in Hin. apply in_range_In in Hin as (Hin & Hf & Ht).
      destruct p as [pts pprice]. cbn [Obs.ts Obs.price] in *.
      injection Hp as -> ->.
      destruct (find_etf etfs sym) as [e|]; [|destruct Hin].
      exists e. repeat split; assumption.
    + intros (e & -> & Hin & Hf & Ht). exists (Obs.mk x y). split; [reflexivity|].
      unfold sort_by_ts. apply (sort_by_In Obs.ts). apply in_range_In.
      cbn [Obs.ts]. repeat split; assumption.
  - intros ->. destruct from, to; reflexivity.
Qed.

Lemma etfChartData_sorted_in_range_witness :
  find_etf [example_AAA_reversed] "ZZZ" = None /\
  etfChartData [example_AAA_reversed] "ZZZ" None None = [] /\
  etfChartData [example_AAA_reversed] "AAA" None None
  = [(100, num 10); (200, num 20)] /\
  etfChartData [example_AAA_reversed] "AAA" (Some 150) None = [(200, num 20)].
Proof.
  assert (Hnone : find_etf [example_AAA_reversed] "ZZZ" = None) by reflexivity.
  split; [exact Hnone|]. split.
  - destruct (etfChartData_sorted_in_range [example_AAA_reversed] "ZZZ" None None)
      as (_ & _ & _ & H).
    exact (H Hnone).
  - split; reflexivity.
Defined.

Lemma descending_sorted (A : Type) (key : A -> Z) (l : list A) :
  key_sorted (fun p => - key p) l ->
  StronglySorted (fun a b => key b <= key a) l.
Proof.
  induction l as [|x l IH]; intros Hs.
  - constructor.
  - apply key_sorted_inv in Hs as [Hs Hx]. constructor; [apply IH, Hs|].
    apply Forall_forall. intros y Hy. specialize (Hx y Hy). lia.
Qed.

(** X12.  The purchase table shows exactly the purchases that pass the
    symbol filter and lie inside the date range, each as many times as it
    is stored, oldest first when the order is ascending and newest first
    otherwise; both orders show the same rows. *)
Theorem purchaseRows_filtered_sorted
  (purchases : list Purchase.t) (fSymbol : string) (from to : option Z) :
  (forall asc,
     Permutation (purchaseRows purchases fSymbol from to asc)
                 (filter (fun p => (String.eqb fSymbol "" ||
                                    String.eqb (Purchase.symbol p) fSymbol)
                                   && within from to (Purchase.ts p))
                         purchases)) /\
  (forall asc p,
     In p (purchaseRows purchases fSymbol from to asc) <->
     In p purchases /\
     (fSymbol = EmptyString \/ Purchase.symbol p = fSymbol) /\
     match from with Some f => f <= Purchase.ts p | None => True end /\
     match to with Some u => Purchase.ts p <= u | None => True end) /\
  StronglySorted (fun a b => Purchase.ts a <= Purchase.ts b)
                 (purchaseRows purchases fSymbol from to true) /\
  StronglySorted (fun a b => Purchase.ts b <= Purchase.ts a)
                 (purchaseRows purchases fSymbol from to false) /\
  Permutation (purchaseRows purchases fSymbol from to true)
              (purchaseRows purchases fSymbol from to false).
Proof.
  split; [|split; [|split; [|split]]].
  - intros asc. unfold purchaseRows.
    apply perm_trans with
      (in_range Purchase.ts from to
         (if String.eqb fSymbol "" then purchases
          else filter (fun p => String.eqb (Purchase.symbol p) fSymbol) purchases)).
    { destruct asc; apply sort_by_perm. }
    rewrite in_range_filter.
    assert (Heq :
      filter (fun p => within from to (Purchase.ts p))
             (if String.eqb fSymbol "" then purchases
              else filter (fun p => String.eqb (Purchase.symbol p) fSymbol) purchases)
      = filter (fun p => (String.eqb fSymbol "" ||
                          String.eqb (Purchase.symbol p) fSymbol)
                         && within from to (Purchase.ts p))
               purchases).
    { destruct (String.eqb fSymbol ""); cbn [orb]; [reflexivity|].
      induction purchases as [|p l IH]; [reflexivity|].
      cbn [filter]. destruct (String.eqb (Purchase.symbol p) fSymbol);
        cbn [filter andb]; rewrite IH; reflexivity. }
    rewrite Heq. apply Permutation_refl.
  - intros asc p. unfold purchaseRows.
    assert (Hsort : forall key arr, In p (if asc then sort_by Purchase.ts arr
                                          else sort_by key arr) <-> In p arr).
    { intros key arr. destruct asc; apply sort_by_In. }
    rewrite Hsort, in_range_In.
    destruct (String.eqb_spec fSymbol "") as [-> | Hne].
    + split; [intros (H1 & H2 & H3) | intros (H1 & _ & H2 & H3)]; repeat split;
        try assumption. left. reflexivity.
    + rewrite filter_In. split.
      * intros ((H1 & Heq) & H2 & H3). apply String.eqb_eq in Heq.
        repeat split; try assumption. right. exact Heq.
      * intros (H1 & [Hs | Hs] & H2 & H3); [contradiction|].
        repeat split; try assumption. apply String.eqb_eq, Hs.
  - unfold purchaseRows. apply sort_by_sorted.
  - unfold purchaseRows. apply descending_sorted, sort_by_sorted.
  - unfold purchaseRows.
    eapply perm_trans; [apply sort_by_perm | apply Permutation_sym, sort_by_perm].
Qed.

Lemma purchaseRows_filtered_sorted_witness :
  In example_purchase [example_orphan; example_purchase; example_purchase] /\
  In example_purchase
     (purchaseRows [example_orphan; example_purchase; example_purchase]
                   "AAA" (Some 100) None false) /\
  Permutation
    (purchaseRows [example_orphan; example_purchase; example_purchase]
                  "AAA" (Some 100) None false)
    [example_purchase; example_purchase].
Proof.
  assert (Hin : In example_purchase [example_orphan; example_purchase; example_purchase])
    by (right; left; reflexivity).
  split; [exact Hin|].
  destruct (purchaseRows_filtered_sorted
              [example_orphan; example_purchase; example_purchase]
              "AAA" (Some 100) None) as (Hperm & H & _).
  split.
  - apply H. split; [exact Hin|]. split; [right; reflexivity|].
    split; [simpl; lia | exact I].
  - exact (Hperm false).
Defined.

(** ** Grouped sums *)

Section GroupingFacts.
Context {K : Type} (eqb : K -> K -> bool).
Hypothesis eqb_eq : forall a b, eqb a b = true <-> a = b.

Lemma bump_keys (m : list (K * number)) (k : K) (q : number) (k' : K) :
  In k' (map fst (bump eqb m k q)) <-> In k' (map fst m) \/ k' = k.
Proof.
  induction m as [|[k0 v] m IH]; cbn [bump map fst In].
  - split; [intros [H | []]; right; symmetry; exact H | intros [[] | H]; left; symmetry; exact H].
  - destruct (eqb k0 k) eqn:E; cbn [map fst In].
    + apply eqb_eq in E. subst k0. split; [tauto|].
      intros [H | H]; [exact H | left; symmetry; exact H].
    + rewrite IH. tauto.
Qed.

Lemma bump_keys_NoDup (m : list (K * number)) (k : K) (q : number) :
  NoDup (map fst m) -> NoDup (map fst (bump eqb m k q)).
Proof.
  induction m as [|[k0 v] m IH]; intros Hn; cbn [bump map fst].
  - constructor; [intros [] | constructor].
  - inversion Hn as [|? ? Hnotin Hn']; subst.
    destruct (eqb k0 k) eqn:E; cbn [map fst].
    + constructor; assumption.
    + constructor; [|apply IH, Hn'].
      intros Hin. apply bump_keys in Hin as [Hin | Heq]; [contradiction|].
      subst k0. assert (Ht : eqb k k = true) by (apply eqb_eq; reflexivity).
      rewrite Ht in E. discriminate.
Qed.

Lemma entry_of_In (m : list (K * number)) (k : K) (v : number) :
  NoDup (map fst m) -> In (k, v) m -> entry eqb m k = Some v.
Proof.
  induction m as [|[k0 v0] m IH]; intros Hn Hin.
  - destruct Hin.
  - inversion Hn as [|? ? Hnotin Hn']; subst. cbn [entry].
    destruct Hin as [[= -> ->] | Hin].
    + assert (Ht : eqb k k = true) by (apply eqb_eq; reflexivity).
      rewrite Ht. reflexivity.
    + destruct (eqb k0 k) eqn:E; [|apply IH; assumption].
      apply eqb_eq in E. subst k0. exfalso. apply Hnotin.
      apply in_map_iff. exists (k, v). split; [reflexivity | exact Hin].
Qed.

(** An amount is tallied under its key and under no other. *)
Lemma entry_bump (m : list (K * number)) (k : K) (q : number) (k' : K) :
  entry eqb (bump eqb m k q) k'
  = if eqb k k' then tally (entry eqb m k') q else entry eqb m k'.
Proof.
  induction m as [|[k0 v] m IH]; cbn [bump entry].
  - destruct (eqb k k'); reflexivity.
  - destruct (eqb k0 k) eqn:E; cbn [entry].
    + apply eqb_eq in E. subst k0. destruct (eqb k k'); reflexivity.
    + destruct (eqb k0 k') eqn:E'; [|exact IH].
      destruct (eqb k k') eqn:E''; [|reflexivity].
      apply eqb_eq in E', E''. subst.
      assert (Ht : eqb k' k' = true) by (apply eqb_eq; reflexivity).
      rewrite Ht in E. discriminate.
Qed.
End GroupingFacts.

(** ** Purchases chart *)
Section PurchasesChartFacts.
Variable day_of : Z -> Z.
Variable etfs : list Etf.t.
Variable sym : string.
Variables cf ct : option Z.

Lemma byDay_step_charted (byDay : list (Z * number)) (p : Purchase.t) :
  charted etfs sym cf ct p = true ->
  exists unit,
    priceAt etfs (Purchase.symbol p) (Purchase.ts p) = Some unit /\
    byDay_step day_of etfs sym cf ct byDay p
    = bump Z.eqb byDay (day_of (Purchase.ts p)) (fmul (Purchase.qty p) unit).
Proof.
  unfold charted, byDay_step. intros H.
  apply andb_true_iff in H as [H Hprice]. apply andb_true_iff in H as [H Hct].
  apply andb_true_iff in H as [Hsym Hcf].
  rewrite Hsym. cbn [negb].
  destruct (priceAt etfs (Purchase.symbol p) (Purchase.ts p)) as [unit|];
    [|discriminate].
  exists unit. split; [reflexivity|].
  destruct cf as [f|], ct as [u|];
    repeat match goal with
           | H : negb ?b = true |- _ => apply negb_true_iff in H; rewrite H
           end; reflexivity.
Qed.

Lemma byDay_step_skipped (byDay : list (Z * number)) (p : Purchase.t) :
  charted etfs sym cf ct p = false ->
  byDay_step day_of etfs sym cf ct byDay p = byDay.
Proof.
  unfold charted, byDay_step. intros H.
  destruct (String.eqb (Purchase.symbol p) sym); [|reflexivity]. cbn [negb andb] in *.
  destruct (match cf with Some f => Purchase.ts p <? f | None => false end) eqn:Ecf;
    [reflexivity|].
  destruct (match ct with Some u => Purchase.ts p >? u | None => false end) eqn:Ect;
    [reflexivity|].
  destruct (priceAt etfs (Purchase.symbol p) (Purchase.ts p)); [|reflexivity].
  exfalso. destruct cf as [f|], ct as [u|]; try rewrite Ecf in H; try rewrite Ect in H;
    discriminate.
Qed.

Lemma byDay_loop (l : list Purchase.t) (byDay : list (Z * number)) :
  NoDup (map fst byDay) ->
  let byDay' := fold_left (byDay_step day_of etfs sym cf ct) l byDay in
  NoDup (map fst byDay') /\
  (forall x, In x (map fst byDay') <->
             In x (map fst byDay) \/
             exists p, In p l /\ charted etfs sym cf ct p = true /\
                       day_of (Purchase.ts p) = x) /\
  (forall x,
     entry Z.eqb byDay' x
     = fold_left tally
         (amounts (fun p => priceAt etfs (Purchase.symbol p) (Purchase.ts p))
                  (filter (fun p => charted etfs sym cf ct p
                                    && (day_of (Purchase.ts p) =? x)) l))
         (entry Z.eqb byDay x)).
Proof.
  revert byDay. induction l as [|p l IH]; intros byDay Hn; cbn zeta; cbn [fold_left].
  - split; [exact Hn|]. split.
    + intros x. split; [intros H; left; exact H | intros [H | (p & [] & _)]; exact H].
    + intros x. reflexivity.
  - destruct (charted etfs sym cf ct p) eqn:C.
    + destruct (byDay_step_charted byDay p C) as (unit & Hprice & ->).
      destruct (IH (bump Z.eqb byDay (day_of (Purchase.ts p)) (fmul (Purchase.qty p) unit)))
        as (Hn' & Hkeys & Hsum).
      { apply (bump_keys_NoDup Z.eqb Z.eqb_eq), Hn. }
      cbn zeta in Hkeys, Hsum. split; [exact Hn'|]. split.
      * intros x. rewrite Hkeys, (bump_keys Z.eqb Z.eqb_eq). split.
        -- intros [[H | ->] | (q & Hq & Hc & Hd)].
           ++ left. exact H.
           ++ right. exists p. repeat split; [left; reflexivity | exact C].
           ++ right. exists q. repeat split; [right; exact Hq | exact Hc | exact Hd].
        -- intros [H | (q & [<- | Hq] & Hc & Hd)].
           ++ left. left. exact H.
           ++ left. right. symmetry. exact Hd.
           ++ right. exists q. repeat split; assumption.
      * intros x. rewrite Hsum, (entry_bump Z.eqb Z.eqb_eq).
        cbn [filter]. rewrite C. cbn [andb].
        destruct (day_of (Purchase.ts p) =? x); [|reflexivity].
        unfold amounts. cbn [flat_map]. rewrite Hprice. reflexivity.
    + rewrite (byDay_step_skipped byDay p C).
      destruct (IH byDay Hn) as (Hn' & Hkeys & Hsum).
      cbn zeta in Hkeys, Hsum. split; [exact Hn'|]. split.
      * intros x. rewrite Hkeys. split.
        -- intros [H | (q & Hq & Hc & Hd)]; [left; exact H|].
           right. exists q. repeat split; [right; exact Hq | exact Hc | exact Hd].
        -- intros [H | (q & [<- | Hq] & Hc & Hd)].
           ++ left. exact H.
           ++ rewrite C in Hc. discriminate.
           ++ right. exists q. repeat split; assumption.
      * intros x. rewrite Hsum. cbn [filter]. rewrite C. cbn [andb]. reflexivity.
Qed.

(** X15.  In a dataset of the purchases chart the days are strictly
    ascending, each day of a charted purchase (of the symbol, in the range,
    with a price) appears once and no other day does, and the bar of a day
    is the tally of the costs of the charted purchases of that day, each
    cost [qty * price] added in the order of the purchases, rounding as
    the program's numbers do. *)
Theorem purchasesChartData_daily_totals (purchases : list Purchase.t) :
  StronglySorted (fun a b : Z * number => fst a < fst b)
                 (purchasesChartData day_of etfs purchases sym cf ct) /\
  (forall x,
     In x (map fst (purchasesChartData day_of etfs purchases sym cf ct)) <->
     exists p, In p purchases /\ charted etfs sym cf ct p = true /\
               day_of (Purchase.ts p) = x) /\
  (forall x y,
     In (x, y) (purchasesChartData day_of etfs purchases sym cf ct) ->
     day_total
       (amounts (fun p => priceAt etfs (Purchase.symbol p) (Purchase.ts p))
                (filter (fun p => charted etfs sym cf ct p
                                  && (day_of (Purchase.ts p) =? x))
                        purchases))
     = Some y).
Proof.
  unfold purchasesChartData.
  destruct (byDay_loop purchases []) as (Hn & Hkeys & Hsum); [constructor|].
  cbn zeta in Hn, Hkeys, Hsum.
  set (byDay := fold_left (byDay_step day_of etfs sym cf ct) purchases []) in *.
  assert (HP : Permutation (sort_by fst byDay) byDay) by apply sort_by_perm.
  split; [|split].
  - apply (key_sorted_strict fst); [apply sort_by_sorted|].
    apply Permutation_NoDup with (map fst byDay); [|exact Hn].
    apply Permutation_map, Permutation_sym, HP.
  - intros x. split; intros H.
    + apply (Permutation_in _ (Permutation_map fst HP)) in H.
      apply Hkeys in H as [[] | H]. exact H.
    + apply (Permutation_in _ (Permutation_map fst (Permutation_sym HP))).
      apply Hkeys. right. exact H.
  - intros x y Hin. apply (Permutation_in _ HP) in Hin.
    pose proof (entry_of_In Z.eqb Z.eqb_eq byDay x y Hn Hin) as He.
    specialize (Hsum x). rewrite He in Hsum. cbn [entry] in Hsum.
    unfold day_total. symmetry. exact Hsum.
Qed.

End PurchasesChartFacts.

Lemma purchasesChartData_daily_totals_witness :
  In (100, num 80)
     (purchasesChartData (fun t => t / 100 * 100) [example_AAA]
        [example_purchase; example_orphan; Purchase.mk 160 "AAA" (num 3)] "AAA" None None) /\
  day_total
    (amounts (fun p => priceAt [example_AAA] (Purchase.symbol p) (Purchase.ts p))
             (filter (fun p => charted [example_AAA] "AAA" None None p
                               && (Purchase.ts p / 100 * 100 =? 100))
                     [example_purchase; example_orphan;
                      Purchase.mk 160 "AAA" (num 3)]))
  = Some (num 80).
Proof.
  assert (Hin : In (100, num 80)
                   (purchasesChartData (fun t => t / 100 * 100) [example_AAA]
                      [example_purchase; example_orphan; Purchase.mk 160 "AAA" (num 3)]
                      "AAA" None None)) by (left; vm_compute; reflexivity).
  split; [exact Hin|].
  destruct (purchasesChartData_daily_totals (fun t => t / 100 * 100) [example_AAA]
              "AAA" None None
              [example_purchase; example_orphan; Purchase.mk 160 "AAA" (num 3)])
    as (_ & _ & H).
  exact (H 100 (num 80) Hin).
Defined.

(** ** Local storage, import and reload *)
Module StorageFacts.
Import App.

Lemma LsKey_eqb_eq (a b : LsKey) : LsKey_eqb a b = true <-> a = b.
Proof.
  destruct a, b; cbn; split; intros H; try reflexivity; discriminate H.
Qed.

Lemma ls_get_set_same (k : LsKey) (raw : string) (ls : list (LsKey * string)) :
  ls_get k (ls_set k raw ls) = Some raw.
Proof.
  induction ls as [|[k' raw'] ls IH]; cbn [ls_set ls_get].
  - assert (E : LsKey_eqb k k = true) by (apply LsKey_eqb_eq; reflexivity).
    rewrite E. reflexivity.
  - destruct (LsKey_eqb k' k) eqn:E; cbn [ls_get].
    + assert (E' : LsKey_eqb k k = true) by (apply LsKey_eqb_eq; reflexivity).
      rewrite E'. reflexivity.
    + rewrite E. exact IH.
Qed.

Lemma ls_get_set_other (k k' : LsKey) (raw : string) (ls : list (LsKey * string)) :
  k <> k' -> ls_get k' (ls_set k raw ls) = ls_get k' ls.
Proof.
  intros Hne. induction ls as [|[k0 raw0] ls IH]; cbn [ls_set ls_get].
  - destruct (LsKey_eqb k k') eqn:E; [|reflexivity].
    apply LsKey_eqb_eq in E. contradiction.
  - destruct (LsKey_eqb k0 k) eqn:E; cbn [ls_get].
    + apply LsKey_eqb_eq in E. subst k0.
      destruct (LsKey_eqb k k') eqn:E'; [|reflexivity].
      apply LsKey_eqb_eq in E'. contradiction.
    + destruct (LsKey_eqb k0 k'); [reflexivity | exact IH].
Qed.

Section StorageRoundTrip.
Variable JSON_parse : string -> option json.
Variable JSON_stringify : json -> string.

(** X16.  What [storage.set] stores under a key, [storage.get] reads back
    from that key when the value's text is not empty and parses back to
    the value; the other keys read as before; and a key that was never
    set, or holds text that does not parse, reads as the fallback. *)
Theorem storage_set_get (s : State) (key : LsKey) (val fallback : json) :
  (JSON_stringify val <> EmptyString ->
   JSON_parse (JSON_stringify val) = Some val ->
   fst (storage_get JSON_parse key fallback
          (snd (storage_set JSON_stringify key val s))) = inr val) /\
  (forall key', key <> key' ->
     fst (storage_get JSON_parse key' fallback
            (snd (storage_set JSON_stringify key val s)))
     = fst (storage_get JSON_parse key' fallback s)) /\
  (ls_get key (localStorage s) = None ->
   fst (storage_get JSON_parse key fallback s) = inr fallback) /\
  (forall raw, ls_get key (localStorage s) = Some raw -> JSON_parse raw = None ->
   fst (storage_get JSON_parse key fallback s) = inr fallback) /\
  etfs (snd (storage_set JSON_stringify key val s)) = etfs s /\
  purchases (snd (storage_set JSON_stringify key val s)) = purchases s /\
  goals (snd (storage_set JSON_stringify key val s)) = goals s /\
  ui (snd (storage_set JSON_stringify key val s)) = ui s.
Proof.
  unfold storage_get, storage_set, gets, modify. cbn [fst snd localStorage].
  split; [|split; [|split; [|split]]].
  - intros Hne Hparse. rewrite ls_get_set_same.
    apply String.eqb_neq in Hne. rewrite Hne, Hparse. reflexivity.
  - intros key' Hk. rewrite (ls_get_set_other key key' _ _ Hk). reflexivity.
  - intros ->. reflexivity.
  - intros raw -> ->. destruct (String.eqb raw ""); reflexivity.
  - repeat split.
Qed.

End StorageRoundTrip.
End StorageFacts.

Lemma storage_set_get_witness :
  "[]"%string <> EmptyString /\
  fst (App.storage_get (fun _ => Some (App.JArr [])) App.sip_etfs App.JNull
         (snd (App.storage_set (fun _ => "[]"%string) App.sip_etfs (App.JArr [])
                 example_state)))
  = inr (App.JArr []).
Proof.
  assert (Hne : "[]"%string <> EmptyString) by discriminate.
  split; [exact Hne|].
  destruct (StorageFacts.storage_set_get (fun _ => Some (App.JArr []))
              (fun _ => "[]"%string) example_state App.sip_etfs (App.JArr []) App.JNull)
    as [H _].
  exact (H Hne eq_refl).
Defined.

Module ImportFacts.
Import App.

Lemma lookup_assign_same (k : string) (v : json) (fields : list (string * json)) :
  lookup k (assign k v fields) = Some v.
Proof.
  induction fields as [|[k' v'] fields IH]; cbn [assign lookup].
  - rewrite String.eqb_refl. reflexivity.
  - destruct (String.eqb k' k) eqn:E; cbn [lookup].
    + rewrite String.eqb_refl. reflexivity.
    + rewrite E. exact IH.
Qed.

Lemma lookup_assign_other (k k' : string) (v : json) (fields : list (string * json)) :
  k <> k' -> lookup k' (assign k v fields) = lookup k' fields.
Proof.
  intros Hne. induction fields as [|[k0 v0] fields IH]; cbn [assign lookup].
  - destruct (String.eqb_spec k k') as [Heq | _]; [contradiction | reflexivity].
  - destruct (String.eqb_spec k0 k) as [-> | Hk]; cbn [lookup].
    + destruct (String.eqb_spec k k') as [Heq | _]; [contradiction | reflexivity].
    + destruct (String.eqb k0 k'); [reflexivity | exact IH].
Qed.

Lemma or_else_not_null (a : option json) (b : json) :
  b <> JNull -> or_else a b <> JNull.
Proof.
  intros Hb. unfold or_else.
  destruct a as [[|flag|n|str|items|fields]|]; cbn [truthy];
    try discriminate; try exact Hb.
  - destruct flag; [discriminate | exact Hb].
  - destruct (negb (falsy n)); [discriminate | exact Hb].
  - destruct (negb (String.eqb str "")); [discriminate | exact Hb].
Qed.

Section ImportRuns.
Variable JSON_parse : string -> option json.
Variable JSON_stringify : json -> string.
Variable render : State -> option Exn.
Variable sort_by_symbol : list json -> list json * option Exn.
Local Arguments or_else : simpl never.
Local Arguments is_etfs : simpl never.

(** The state a valid document leaves when neither re-rendering nor the
    sort throws. *)
Lemma import_valid_runs (result : string) (s : State)
  (fields : list (string * json)) (e p : list json) :
  JSON_parse result = Some (JObj fields) ->
  lookup "etfs" fields = Some (JArr e) ->
  lookup "purchases" fields = Some (JArr p) ->
  (forall st, render st = None) ->
  snd (sort_by_symbol e) = None ->
  ui s <> JNull ->
  exists g u1 u',
    (match lookup "goals" fields with Some (JArr items) => JArr items | _ => JArr [] end
     = JArr g) /\
    u' <> JNull /\
    (forall ufields, u' = JObj ufields ->
                     isArray (lookup "expandedEtfs" ufields) = true) /\
    importAll JSON_parse JSON_stringify render sort_by_symbol result s
    = (inr tt,
       mkState (if is_etfs (active_tab (or_else (lookup "ui" fields) (ui s)))
                then JArr (fst (sort_by_symbol e)) else JArr e)
         (JArr p) (JArr g) u'
         (ls_set sip_ui (JSON_stringify u')
            (ls_set sip_ui (JSON_stringify u1)
               (ls_set sip_goals (JSON_stringify (JArr g))
                  (ls_set sip_purchases (JSON_stringify (JArr p))
                     (ls_set sip_etfs (JSON_stringify (JArr e)) (localStorage s))))))
         (alerts s ++ [ImportSucceeded]) (console s)).
Proof.
  intros Hparse He Hp Hrender Hsort Hui.
  assert (Hg : exists g, match lookup "goals" fields with
                         | Some (JArr items) => JArr items
                         | _ => JArr []
                         end = JArr g).
  { destruct (lookup "goals" fields) as [[| | | |items|]|]; eexists; reflexivity. }
  destruct Hg as [g Hg]. exists g.
  unfold importAll, try_catch, import_body. rewrite Hparse.
  cbn [truthy typeof_object negb orb get_prop].
  unfold bind at 1. unfold ret at 1. rewrite He.
  unfold bind at 1. unfold ret at 1. rewrite Hp.
  cbn [isArray negb orb].
  destruct s as [s_etfs s_purchases s_goals s_ui s_ls s_alerts s_console].
  cbn [ui localStorage alerts console] in *.
  pose proof (or_else_not_null (lookup "ui" fields) s_ui Hui) as Hu.
  destruct (sort_by_symbol e) as [sorted thrown] eqn:S. cbn [fst snd] in *. subst thrown.
  unfold set_etfs, set_purchases, set_goals, set_ui, saveEtfs, savePurchases,
    saveGoals, saveUi, storage_set, setActiveTab, renderEtfs, alert, do_render,
    modify, gets, bind.
  cbn. rewrite Hg.
  change (or_else (Some (JArr e)) (JArr [])) with (JArr e).
  change (or_else (Some (JArr p)) (JArr [])) with (JArr p).
  unfold active_tab.
  destruct (or_else (lookup "ui" fields) s_ui) as [|flag|n|str|items|ufields] eqn:U;
    [contradiction| | | | |]; cbn; rewrite ?Hrender; cbn; rewrite ?Hrender; cbn;
    try (destruct (isArray (lookup "expandedEtfs" ufields)) eqn:X; cbn;
         rewrite ?Hrender; cbn; rewrite ?Hrender; cbn;
         rewrite ?lookup_assign_other by discriminate);
    match goal with
    | |- context [is_etfs ?t] => destruct (is_etfs t)
    end;
    repeat (cbn; rewrite ?Hrender, ?S);
    (eexists; eexists; split; [reflexivity|]; split; [|split]; [ | |reflexivity]);
    first [ discriminate
          | intros ? [= <-]; rewrite lookup_assign_other by discriminate;
            first [exact X | rewrite lookup_assign_same; reflexivity] ].
Qed.

Lemma stored_after_saves (s_etfs s_purchases s_goals s_ui u1 : json)
  (ls : list (LsKey * string)) :
  let stored :=
    ls_set sip_ui (JSON_stringify s_ui)
      (ls_set sip_ui (JSON_stringify u1)
         (ls_set sip_goals (JSON_stringify s_goals)
            (ls_set sip_purchases (JSON_stringify s_purchases)
               (ls_set sip_etfs (JSON_stringify s_etfs) ls)))) in
  ls_get sip_etfs stored = Some (JSON_stringify s_etfs) /\
  ls_get sip_purchases stored = Some (JSON_stringify s_purchases) /\
  ls_get sip_goals stored = Some (JSON_stringify s_goals) /\
  ls_get sip_ui stored = Some (JSON_stringify s_ui).
Proof.
  cbn zeta.
  repeat split;
    repeat first [ rewrite StorageFacts.ls_get_set_same
                 | rewrite StorageFacts.ls_get_set_other by discriminate ];
    reflexivity.
Qed.


(** [reloadState] reads the four stored values back, when each parses
    back from its text, [goals] is an array and [ui] an object whose
    [expandedEtfs] is an array or a value that takes no property. *)
Lemma reload_stored (s : State) (v_etfs v_purchases v_ui : json) (g : list json) :
  (forall v, In v [v_etfs; v_purchases; JArr g; v_ui] ->
             JSON_stringify v <> EmptyString /\
             JSON_parse (JSON_stringify v) = Some v) ->
  ls_get sip_etfs (localStorage s) = Some (JSON_stringify v_etfs) ->
  ls_get sip_purchases (localStorage s) = Some (JSON_stringify v_purchases) ->
  ls_get sip_goals (localStorage s) = Some (JSON_stringify (JArr g)) ->
  ls_get sip_ui (localStorage s) = Some (JSON_stringify v_ui) ->
  v_ui <> JNull ->
  (forall ufields, v_ui = JObj ufields ->
                   isArray (lookup "expandedEtfs" ufields) = true) ->
  reloadState JSON_parse s
  = (inr tt, mkState v_etfs v_purchases (JArr g) v_ui
                     (localStorage s) (alerts s) (console s)).
Proof.
  intros Hrt Pe Pp Pg Pu Hui Hexp.
  destruct s as [s_etfs s_purchases s_goals s_ui s_ls s_alerts s_console].
  cbn [etfs purchases goals ui localStorage alerts console] in *.
  assert (Hget : forall key fallback v st,
    ls_get key (localStorage st) = Some (JSON_stringify v) ->
    JSON_stringify v <> EmptyString /\ JSON_parse (JSON_stringify v) = Some v ->
    storage_get JSON_parse key fallback st = (inr v, st)).
  { intros key fallback v st Hls [Hne Hparse]. unfold storage_get, gets.
    rewrite Hls. apply String.eqb_neq in Hne. rewrite Hne, Hparse. reflexivity. }
  unfold reloadState, fix_expandedEtfs.
  unfold bind at 1. unfold bind at 1.
  rewrite (Hget sip_etfs (JArr []) v_etfs) by
    (first [exact Pe | apply Hrt; left; reflexivity]).
  unfold set_etfs at 1, modify at 1.
  cbn [etfs purchases goals ui localStorage alerts console].
  unfold bind at 1. unfold bind at 1.
  rewrite (Hget sip_purchases (JArr []) v_purchases) by
    (first [exact Pp | apply Hrt; right; left; reflexivity]).
  unfold set_purchases at 1, modify at 1.
  cbn [etfs purchases goals ui localStorage alerts console].
  unfold bind at 1. unfold bind at 1.
  rewrite (Hget sip_goals (JArr []) (JArr g)) by
    (first [exact Pg | apply Hrt; right; right; left; reflexivity]).
  unfold set_goals at 1, modify at 1.
  cbn [etfs purchases goals ui localStorage alerts console].
  unfold bind at 1. unfold bind at 1. unfold gets at 1.
  cbn [etfs purchases goals ui localStorage alerts console].
  cbn [isArray negb]. unfold ret at 1.
  unfold bind at 1. unfold bind at 1.
  rewrite (Hget sip_ui default_ui v_ui) by
    (first [exact Pu | apply Hrt; right; right; right; left; reflexivity]).
  unfold set_ui at 1, modify at 1.
  cbn [etfs purchases goals ui localStorage alerts console].
  unfold bind at 1. unfold gets at 1.
  cbn [etfs purchases goals ui localStorage alerts console].
  destruct v_ui as [|flag|n|str|items|ufields]; [contradiction| | | | |];
    try reflexivity.
  unfold bind, get_prop, ret. rewrite (Hexp ufields eq_refl). reflexivity.
Qed.


End ImportRuns.
End ImportFacts.



(** ** Removing a purchase, toggling an instrument, carrying a price forward *)

(** The totals of a list that ends with a purchase continue those of the
    list without it. *)
Lemma totals_of_last (etfs : list Etf.t) (before : list Purchase.t) (p : Purchase.t) :
  invested (computeTotals etfs (before ++ [p]))
  = add_priced (invested (computeTotals etfs before)) (Purchase.qty p)
               (priceAt etfs (Purchase.symbol p) (Purchase.ts p)) /\
  current (computeTotals etfs (before ++ [p]))
  = add_priced (current (computeTotals etfs before)) (Purchase.qty p)
               (latestPrice etfs (Purchase.symbol p)).
Proof.
  unfold computeTotals. cbn [invested current]. rewrite fold_left_app.
  cbn [fold_left totals_step fst snd]. split; reflexivity.
Qed.

(** X20.  Removing the purchase at index [i] keeps the other purchases in
    their order; an index of [-1] (not found) removes nothing; and removing
    the last purchase takes back the one addition it caused: the totals
    before the removal are those after it with the cost and the current
    worth of the purchase added once. *)
Theorem removePurchase_totals (etfs : list Etf.t) (purchases : list Purchase.t)
  (i : Z) (p : Purchase.t) :
  (0 <= i -> nth_error purchases (Z.to_nat i) = Some p ->
   purchases = firstn (Z.to_nat i) purchases ++ p :: skipn (S (Z.to_nat i)) purchases /\
   removePurchase purchases i
   = firstn (Z.to_nat i) purchases ++ skipn (S (Z.to_nat i)) purchases) /\
  (i < 0 -> removePurchase purchases i = purchases) /\
  (forall before,
     purchases = before ++ [p] -> i = Z.of_nat (List.length before) ->
     removePurchase purchases i = before /\
     invested (computeTotals etfs purchases)
     = add_priced (invested (computeTotals etfs (removePurchase purchases i)))
                  (Purchase.qty p)
                  (priceAt etfs (Purchase.symbol p) (Purchase.ts p)) /\
     current (computeTotals etfs purchases)
     = add_priced (current (computeTotals etfs (removePurchase purchases i)))
                  (Purchase.qty p) (latestPrice etfs (Purchase.symbol p))).
Proof.
  split; [|split].
  - intros Hi Hnth.
    assert (Hsplit : purchases = firstn (Z.to_nat i) purchases
                                 ++ p :: skipn (S (Z.to_nat i)) purchases).
    { clear Hi. revert Hnth. generalize (Z.to_nat i) as n.
      induction purchases as [|x l IH]; intros [|n] Hn; cbn in *; try discriminate.
      - injection Hn as ->. reflexivity.
      - f_equal. apply IH, Hn. }
    split; [exact Hsplit|].
    unfold removePurchase. assert (E : (i >=? 0) = true) by (apply Z.geb_le; lia).
    rewrite E. reflexivity.
  - intros Hi. unfold removePurchase.
    assert (E : (i >=? 0) = false) by (rewrite Z.geb_leb; apply Z.leb_gt; lia).
    rewrite E. reflexivity.
  - intros before -> ->.
    assert (Hrem : removePurchase (before ++ [p]) (Z.of_nat (List.length before))
                   = before).
    { unfold removePurchase.
      assert (E : (Z.of_nat (List.length before) >=? 0) = true)
        by (apply Z.geb_le; lia).
      rewrite E, Nat2Z.id. clear E.
      induction before as [|x l IH]; [reflexivity|].
      cbn [List.length app firstn skipn] in *. rewrite IH. reflexivity. }
    rewrite Hrem. split; [reflexivity|]. apply totals_of_last.
Qed.

Lemma removePurchase_totals_witness :
  0 <= 0 /\
  nth_error [example_purchase; example_second_purchase] (Z.to_nat 0)
  = Some example_purchase /\
  removePurchase [example_purchase; example_second_purchase] 0
  = [example_second_purchase] /\
  -1 < 0 /\
  removePurchase [example_purchase; example_second_purchase] (-1)
  = [example_purchase; example_second_purchase] /\
  removePurchase [example_purchase; example_second_purchase] 1 = [example_purchase] /\
  invested (computeTotals [example_AAA] [example_purchase; example_second_purchase])
  = num 80 /\
  invested (computeTotals [example_AAA]
              (removePurchase [example_purchase; example_second_purchase] 1))
  = num 50.
Proof.
  assert (H0 : 0 <= 0) by lia.
  assert (Hn : nth_error [example_purchase; example_second_purchase] (Z.to_nat 0)
               = Some example_purchase) by reflexivity.
  assert (Hneg : -1 < 0) by lia.
  split; [exact H0|]. split; [exact Hn|].
  destruct (removePurchase_totals [example_AAA]
              [example_purchase; example_second_purchase] 0 example_purchase)
    as [H _].
  destruct (H H0 Hn) as (_ & Hrem).
  split; [exact Hrem|]. split; [exact Hneg|].
  destruct (removePurchase_totals [example_AAA]
              [example_purchase; example_second_purchase] (-1) example_purchase)
    as (_ & H' & _).
  split; [exact (H' Hneg)|].
  destruct (removePurchase_totals [example_AAA]
              [example_purchase; example_second_purchase] 1 example_second_purchase)
    as (_ & _ & Hlast).
  destruct (Hlast [example_purchase] eq_refl eq_refl) as (Hr & Hi & _).
  split; [exact Hr|]. split.
  - rewrite Hi, Hr. vm_compute. reflexivity.
  - rewrite Hr. vm_compute. reflexivity.
Defined.

Lemma remove_first_In (sym s : string) (l : list string) :
  NoDup l -> (In s (remove_first sym l) <-> In s l /\ s <> sym).
Proof.
  induction l as [|x l IH]; intros Hn; cbn [remove_first In].
  - tauto.
  - inversion Hn as [|? ? Hnotin Hn']; subst.
    destruct (String.eqb_spec x sym) as [-> | Hne].
    + split.
      * intros H. split; [right; exact H|]. intros ->. contradiction.
      * intros [[H | H] Hs]; [symmetry in H; contradiction | exact H].
    + cbn [In]. rewrite (IH Hn'). split.
      * intros [<- | [H Hs]]; [split; [left; reflexivity | exact Hne]|].
        split; [right; exact H | exact Hs].
      * intros [[H | H] Hs]; [left; exact H | right; split; assumption].
Qed.

Lemma remove_first_NoDup (sym : string) (l : list string) :
  NoDup l -> NoDup (remove_first sym l).
Proof.
  induction l as [|x l IH]; intros Hn; cbn [remove_first].
  - constructor.
  - inversion Hn as [|? ? Hnotin Hn']; subst.
    destruct (String.eqb x sym); [exact Hn'|].
    constructor; [|apply IH, Hn'].
    intros H. apply (remove_first_In sym x l Hn') in H as [H _]. contradiction.
Qed.

(** X21.  On a list of expanded symbols without repetition, the toggle
    handler flips the membership of its symbol, leaves the membership of
    every other symbol alone, and keeps the list without repetition. *)
Theorem toggleExpanded_flips (expandedEtfs : list string) (sym : string) :
  NoDup expandedEtfs ->
  NoDup (toggleExpanded expandedEtfs sym) /\
  (In sym (toggleExpanded expandedEtfs sym) <-> ~ In sym expandedEtfs) /\
  (forall s, s <> sym ->
             (In s (toggleExpanded expandedEtfs sym) <-> In s expandedEtfs)).
Proof.
  intros Hn. unfold toggleExpanded.
  destruct (existsb (String.eqb sym) expandedEtfs) eqn:E.
  - assert (Hin : In sym expandedEtfs).
    { apply existsb_exists in E as (x & Hx & Heq).
      apply String.eqb_eq in Heq. subst x. exact Hx. }
    split; [apply remove_first_NoDup, Hn|]. split.
    + rewrite (remove_first_In sym sym _ Hn). split; [intros [_ H] | intros H]; tauto.
    + intros s Hs. rewrite (remove_first_In sym s _ Hn). tauto.
  - assert (Hnotin : ~ In sym expandedEtfs).
    { intros Hin.
      assert (H : existsb (String.eqb sym) expandedEtfs = true).
      { apply existsb_exists. exists sym. split; [exact Hin | apply String.eqb_refl]. }
      rewrite H in E. discriminate. }
    split; [|split].
    + apply NoDup_app; [exact Hn | constructor; [intros [] | constructor] |].
      intros s Hs [<- | []]. contradiction.
    + rewrite in_app_iff. cbn [In]. tauto.
    + intros s Hs. rewrite in_app_iff. cbn [In]. split; [|tauto].
      intros [H | [H | []]]; [exact H | symmetry in H; contradiction].
Qed.

Lemma toggleExpanded_flips_witness :
  NoDup ["AAA"%string; "BBB"%string] /\
  NoDup (toggleExpanded ["AAA"%string; "BBB"%string] "AAA") /\
  ~ In "AAA"%string (toggleExpanded ["AAA"%string; "BBB"%string] "AAA").
Proof.
  assert (Hn : NoDup ["AAA"%string; "BBB"%string]).
  { constructor.
    - intros [H | []]. discriminate H.
    - constructor; [intros [] | constructor]. }
  split; [exact Hn|].
  destruct (toggleExpanded_flips ["AAA"%string; "BBB"%string] "AAA" Hn)
    as (Hnd & Hflip & _).
  split; [exact Hnd|].
  intros Hin. apply Hflip in Hin. apply Hin. left. reflexivity.
Defined.

Lemma filter_sorted (l : list Z) (f : Z -> bool) :
  StronglySorted Z.lt l -> StronglySorted Z.lt (filter f l).
Proof.
  induction l as [|x l IH]; intros Hs; cbn [filter].
  - constructor.
  - inversion Hs as [|? ? Hs' Hall]; subst.
    destruct (f x); [|apply IH, Hs'].
    constructor; [apply IH, Hs'|].
    rewrite Forall_forall in *. intros y Hy. apply filter_In in Hy as [Hy _].
    apply Hall, Hy.
Qed.

(** X22.  With a date range too, the samples of the portfolio chart are
    strictly ascending and are exactly the timestamps of price
    observations and purchases inside the range, both bounds included. *)
Theorem points_range_strictly_ascending
  (etfs : list Etf.t) (purchases : list Purchase.t) (from to : option Z) :
  StronglySorted Z.lt (points etfs purchases from to) /\
  (forall t, In t (points etfs purchases from to) <->
             event_time etfs purchases t /\
             match from with Some f => f <= t | None => True end /\
             match to with Some u => t <= u | None => True end).
Proof.
  split; [|intros t; apply points_in_range].
  assert (Hbase : StronglySorted Z.lt (sort_num (collect_times etfs purchases))).
  { unfold sort_num. apply (key_sorted_strict (fun t : Z => t)).
    - apply sort_by_sorted.
    - rewrite map_id.
      apply Permutation_NoDup with (collect_times etfs purchases);
        [apply Permutation_sym, sort_by_perm | apply collect_times_NoDup]. }
  unfold points. destruct from as [f|], to as [u|];
    repeat apply filter_sorted; exact Hbase.
Qed.

Lemma points_range_strictly_ascending_witness :
  event_time [example_AAA] [example_purchase] 150 /\
  In 150 (points [example_AAA] [example_purchase] (Some 150) (Some 150)) /\
  ~ In 200 (points [example_AAA] [example_purchase] (Some 150) (Some 150)).
Proof.
  assert (Hev : event_time [example_AAA] [example_purchase] 150).
  { right. exists example_purchase. split; [left|]; reflexivity. }
  split; [exact Hev|].
  destruct (points_range_strictly_ascending [example_AAA] [example_purchase]
              (Some 150) (Some 150)) as [_ H].
  split.
  - apply H. split; [exact Hev | split; lia].
  - intros Hin. apply H in Hin as (_ & _ & Hle). lia.
Defined.

(** X23.  A price is carried forward: between a time [t] at or after some
    observation of the instrument and a later time [t'], with no
    observation after [t] and up to [t'], [priceAt] gives the same
    price. *)
Theorem priceAt_carries_forward (etfs : list Etf.t) (symbol : string) (e : Etf.t)
  (t t' : Z) :
  find_etf etfs symbol = Some e ->
  t <= t' ->
  (forall q, In q (Etf.prices e) -> Obs.ts q <= t' -> Obs.ts q <= t) ->
  (exists q, In q (Etf.prices e) /\ Obs.ts q <= t) ->
  priceAt etfs symbol t' = priceAt etfs symbol t.
Proof.
  intros Hf Ht Hgap (q & Hq & Hqt).
  assert (Hne : Etf.prices e <> []) by (intros H; rewrite H in Hq; destruct Hq).
  rewrite !(priceAt_found _ _ _ _ Hf Hne). unfold price_scan.
  rewrite !candidate_spec.
  assert (Hfilter : filter (fun q => Obs.ts q <=? t') (Etf.prices e)
                    = filter (fun q => Obs.ts q <=? t) (Etf.prices e)).
  { apply filter_ext_in. intros x Hx.
    destruct (Obs.ts x <=? t) eqn:E.
    - apply Z.leb_le in E. apply Z.leb_le. lia.
    - apply Z.leb_gt in E. apply Z.leb_gt.
      destruct (Z_le_gt_dec (Obs.ts x) t') as [Hle | Hgt]; [|lia].
      specialize (Hgap x Hx Hle). lia. }
  rewrite Hfilter.
  destruct (latest_obs (filter (fun q => Obs.ts q <=? t) (Etf.prices e))) eqn:L;
    [reflexivity|].
  exfalso.
  assert (Hin : In q (filter (fun q => Obs.ts q <=? t) (Etf.prices e))).
  { apply filter_In. split; [exact Hq | apply Z.leb_le, Hqt]. }
  destruct (filter (fun q => Obs.ts q <=? t) (Etf.prices e));
    [destruct Hin | discriminate].
Qed.

Lemma priceAt_carries_forward_witness :
  find_etf [example_AAA] "AAA" = Some example_AAA /\ 100 <= 199 /\
  (forall q, In q (Etf.prices example_AAA) -> Obs.ts q <= 199 -> Obs.ts q <= 100) /\
  (exists q, In q (Etf.prices example_AAA) /\ Obs.ts q <= 100) /\
  priceAt [example_AAA] "AAA" 199 = priceAt [example_AAA] "AAA" 100.
Proof.
  assert (Hf : find_etf [example_AAA] "AAA" = Some example_AAA) by reflexivity.
  assert (Ht : 100 <= 199) by lia.
  assert (Hgap : forall q, In q (Etf.prices example_AAA) ->
                           Obs.ts q <= 199 -> Obs.ts q <= 100).
  { intros q [<- | [<- | []]]; simpl; lia. }
  assert (Hq : exists q, In q (Etf.prices example_AAA) /\ Obs.ts q <= 100).
  { exists (Obs.mk 100 (num 10)). split; [left; reflexivity | simpl; lia]. }
  split; [exact Hf|]. split; [exact Ht|]. split; [exact Hgap|]. split; [exact Hq|].
  exact (priceAt_carries_forward [example_AAA] "AAA" example_AAA 100 199 Hf Ht Hgap Hq).
Defined.
